(** * Briefer database package: LISTEN/NOTIFY publish/subscribe layer

    A shallow embedding of the pub/sub part of the database package
    ([getPGInstance], [subscribe], the unsubscribe closure, [hashChannel],
    [publish] and the notification handler) together with the properties
    its specification states about it, and of [init], [prisma],
    [getPGPool] and [recoverFromNotFound] with further properties read off
    the code.

    Modelling conventions.
    - A JavaScript string is its sequence of UTF-16 code units, each a [Z]
      in [0, 65535]; [charCodeAt] is list indexing.  String literals of the
      source are written [str "..."].
    - A JavaScript number holding an integer of magnitude below 2^53 is that
      integer as a [Z]; [x | 0] is [ToInt32].
    - The module-level variables ([dbOptions], [pgInstance], [subscribers])
      are the fields of [State].  [subscribers] is the finite map of the own
      properties of the object, read through [getProperty], which also finds
      the properties inherited from [Object.prototype]; a [Set] is the list
      of its members in insertion order, which is the order [forEach] visits
      them.
    - Callbacks are compared by reference: a callback is an identifier.
    - An [async] function is a computation in the monad [M]; a rejected
      promise is an exception.  Each call runs to completion before the next
      one starts: the properties are about calls that do not overlap, and
      say nothing of what another call sees at an [await] of this one.
    - The database server is a parameter: it decides, from the queries
      already sent on the dedicated connection, whether the next one is
      resolved or rejected, and whether a connection attempt succeeds. *)

From Stdlib Require Import ZArith Lia List Ascii String Bool.
From stdpp Require Import base option list gmap.
Import ListNotations.
Local Open Scope Z_scope.

(** ** JavaScript strings *)

Abbreviation jsstring := (list Z).

Module JsString.

Abbreviation code_unit := Z.

Abbreviation t := (list Z).

Definition well_formed (s : t) : Prop := Forall (fun c => 0 <= c < 65536) s.

(** A string literal of the source. *)
Definition str (s : string) : t :=
  List.map (fun a => Z.of_nat (nat_of_ascii a)) (list_ascii_of_string s).

Definition quotation_mark : code_unit := 34.
Definition reverse_solidus : code_unit := 92.

Fixpoint starts_with (p s : t) : bool :=
  match p, s with
  | [], _ => true
  | a :: p', b :: s' => (a =? b) && starts_with p' s'
  | _ :: _, [] => false
  end.

End JsString.

Abbreviation str := JsString.str.

(** ** [JSON.stringify] on a string (QuoteJSONString of ECMA-262) *)

Module JSON.
Import JsString.

Definition isLeadingSurrogate (c : code_unit) : bool :=
  (55296 <=? c) && (c <=? 56319).

Definition isTrailingSurrogate (c : code_unit) : bool :=
  (56320 <=? c) && (c <=? 57343).

Definition hexDigit (n : Z) : code_unit :=
  if n <? 10 then 48 + n else 87 + n.

(** [\uXXXX] with four lower-case hexadecimal digits. *)
Definition unicodeEscape (c : code_unit) : t :=
  [reverse_solidus; 117;
   hexDigit (Z.shiftr c 12 mod 16); hexDigit (Z.shiftr c 8 mod 16);
   hexDigit (Z.shiftr c 4 mod 16); hexDigit (c mod 16)].

(** One code point that is not a surrogate pair. *)
Definition quoteCodePoint (c : code_unit) : t :=
  if c =? 8 then [reverse_solidus; 98]
  else if c =? 9 then [reverse_solidus; 116]
  else if c =? 10 then [reverse_solidus; 110]
  else if c =? 12 then [reverse_solidus; 102]
  else if c =? 13 then [reverse_solidus; 114]
  else if c =? quotation_mark then [reverse_solidus; quotation_mark]
  else if c =? reverse_solidus then [reverse_solidus; reverse_solidus]
  else if (c <? 32) || isLeadingSurrogate c || isTrailingSurrogate c
       then unicodeEscape c
  else [c].

(** The string is read as code points: a leading surrogate followed by a
    trailing one is a single code point and is copied as it is. *)
Fixpoint quoteCodePoints (s : t) : t :=
  match s with
  | [] => []
  | c :: rest =>
      match rest with
      | d :: rest' =>
          if isLeadingSurrogate c && isTrailingSurrogate d
          then c :: d :: quoteCodePoints rest'
          else quoteCodePoint c ++ quoteCodePoints rest
      | [] => quoteCodePoint c
      end
  end.

Definition stringify (s : t) : t :=
  quotation_mark :: quoteCodePoints s ++ [quotation_mark].

End JSON.

(** ** SQL delimited identifiers

    The quoting the specification asks for, written from its words: the name
    between double quotes, every double quote inside it doubled. *)

Module Sql.
Import JsString.

Definition quoteIdent (s : t) : t :=
  quotation_mark
    :: flat_map (fun c => if c =? quotation_mark then [c; c] else [c]) s
    ++ [quotation_mark].

(** How the server reads the inside of a delimited identifier: two double
    quotes stand for one, a single one ends the identifier.  The result is
    the identifier and the text left after its closing quote. *)
Fixpoint scanBody (s : t) : option (t * t) :=
  match s with
  | [] => None
  | c :: rest =>
      if c =? quotation_mark then
        match rest with
        | d :: rest' =>
            if d =? quotation_mark
            then match scanBody rest' with
                 | Some (name, tl) => Some (quotation_mark :: name, tl)
                 | None => None
                 end
            else Some ([], rest)
        | [] => Some ([], [])
        end
      else match scanBody rest with
           | Some (name, tl) => Some (c :: name, tl)
           | None => None
           end
  end.

(** An identifier is kept up to 63 bytes of its UTF-8 encoding, cut between
    characters.  A surrogate pair is one character of four bytes; a lone
    surrogate reaches the server as a replacement character of three. *)
Definition maxIdentifierBytes : Z := 63.

Definition utf8Bytes (c : code_unit) : Z :=
  if c <? 128 then 1 else if c <? 2048 then 2 else 3.

Fixpoint utf8Length (s : t) : Z :=
  match s with
  | [] => 0
  | c :: rest =>
      match rest with
      | d :: rest' =>
          if JSON.isLeadingSurrogate c && JSON.isTrailingSurrogate d
          then 4 + utf8Length rest'
          else utf8Bytes c + utf8Length rest
      | [] => utf8Bytes c
      end
  end.

Fixpoint clip (budget : Z) (s : t) : t :=
  match s with
  | [] => []
  | c :: rest =>
      match rest with
      | d :: rest' =>
          if JSON.isLeadingSurrogate c && JSON.isTrailingSurrogate d
          then if 4 <=? budget then c :: d :: clip (budget - 4) rest' else []
          else if utf8Bytes c <=? budget
               then c :: clip (budget - utf8Bytes c) rest else []
      | [] => if utf8Bytes c <=? budget then [c] else []
      end
  end.

(** A delimited identifier at the head of [s]: the server refuses one of
    length zero and cuts one that is too long. *)
Definition scanIdent (s : t) : option (t * t) :=
  match s with
  | c :: rest =>
      if c =? quotation_mark then
        match scanBody rest with
        | Some ([], _) => None
        | Some (name, tl) => Some (clip maxIdentifierBytes name, tl)
        | None => None
        end
      else None
  | [] => None
  end.

End Sql.

(** ** [hashChannel] *)

(** [x | 0]: the signed 32-bit integer congruent to [x]. *)
Definition toInt32 (x : Z) : Z := (x + 2 ^ 31) mod 2 ^ 32 - 2 ^ 31.

Definition hashStep (hash : Z) (c : JsString.code_unit) : Z :=
  toInt32 (hash * 31 + c).

(** The loop of [hashChannel]: [hash] after the characters of [channel]. *)
Definition hashLoop (channel : jsstring) (hash : Z) : Z :=
  fold_left hashStep channel hash.

Definition hashChannel (channel : jsstring) : Z :=
  Z.abs (hashLoop channel 0).

(** ** Values of the program *)

(** A function value; two of them are the same member of a [Set] exactly
    when they are the same reference. *)
Inductive callback := Callback (ref : nat).

#[global] Instance callback_eq_dec : EqDecision callback.
Proof. solve_decision. Defined.

(** A thrown value: whether it is an [Error], and its [message]. *)
Record Exn := { instanceofError : bool; message : jsstring }.

Definition Error (msg : jsstring) : Exn :=
  {| instanceofError := true; message := msg |}.

(** The [ssl] field of [InitOptions]. *)
Record SslParams := { rejectUnauthorized : option bool; ca : option jsstring }.

Inductive SslMode :=
| SslPrefer
| SslObject (p : SslParams)
| SslFalse.

Record InitOptions := { connectionString : jsstring; ssl : SslMode }.

(** The [ssl] option handed to [pg.Pool] and [pg.Client]. *)
Inductive SslOption :=
| ssl_undefined
| ssl_object (p : SslParams)
| ssl_false.

Record ClientConfig := { cfg_connectionString : jsstring; cfg_ssl : SslOption }.

Record PGInstance := { pubSubClient : ClientConfig; pool : ClientConfig }.

(** A query sent with [pubSubClient.query(text, values)]. *)
Inductive Value := VNumber (n : Z) | VString (s : jsstring).

Record Query := { text : jsstring; values : list Value }.

Record Notification := { channel : jsstring; payload : option jsstring }.

(** ** [Set] of callbacks, in insertion order *)

Module JsSet.

Abbreviation t := (list callback).

Definition has (x : callback) (s : t) : bool := bool_decide (x ∈ s).

Definition add (x : callback) (s : t) : t := if has x s then s else s ++ [x].

Definition delete (x : callback) (s : t) : t :=
  List.filter (fun y => negb (bool_decide (y = x))) s.

Definition size (s : t) : Z := Z.of_nat (length s).

End JsSet.

Arguments JsSet.add : simpl never.
Arguments JsSet.delete : simpl never.
Arguments JsSet.size : simpl never.

(** ** Reading a property of the registry object

    [subscribers] is created as [{}]: reading [subscribers[key]] finds the
    own property [key] when there is one, and otherwise the property of that
    name that every object inherits from [Object.prototype], when there is
    one.  The inherited values are functions (for [__proto__], the prototype
    object): they are truthy and have no [add], [delete] or [forEach]. *)

Definition objectPrototypeNames : list jsstring :=
  [str "constructor"; str "__defineGetter__"; str "__defineSetter__";
   str "hasOwnProperty"; str "__lookupGetter__"; str "__lookupSetter__";
   str "isPrototypeOf"; str "propertyIsEnumerable"; str "toString";
   str "valueOf"; str "__proto__"; str "toLocaleString"].

Definition inherited (key : jsstring) : bool :=
  bool_decide (key ∈ objectPrototypeNames).

Inductive Property :=
| OwnSet (subs : list callback)
| Inherited
| Undefined.

Definition getProperty (o : gmap jsstring (list callback)) (key : jsstring)
    : Property :=
  match o !! key with
  | Some subs => OwnSet subs
  | None => if inherited key then Inherited else Undefined
  end.

Arguments inherited : simpl never.
Arguments getProperty : simpl never.

(** ** The module state and its surroundings *)

Record State := {
  dbOptions : option InitOptions;
  pgInstance : option PGInstance;
  subscribers : gmap jsstring (list callback);
  (** what the program has done so far, oldest first *)
  connects : list ClientConfig;
  sent : list Query;
  handlers : list ClientConfig;
  calls : list (callback * option jsstring)
}.

(** What is outside the program: [None] is success, [Some e] the value the
    operation rejects or throws with. *)
Record World := {
  connectOutcome : list ClientConfig -> ClientConfig -> option Exn;
  queryOutcome : list Query -> Query -> option Exn;
  callOutcome : list (callback * option jsstring) -> callback -> option jsstring -> option Exn
}.

(** ** Computations: state and exceptions *)

Inductive Completion (A : Type) :=
| Returned (a : A)
| Thrown (e : Exn).
Arguments Returned {A} a.
Arguments Thrown {A} e.

Definition M (A : Type) : Type := State -> Completion A * State.

Definition ret {A} (a : A) : M A := fun s => (Returned a, s).

Definition throw {A} (e : Exn) : M A := fun s => (Thrown e, s).

Definition bind {A B} (m : M A) (k : A -> M B) : M B :=
  fun s =>
    match m s with
    | (Returned a, s') => k a s'
    | (Thrown e, s') => (Thrown e, s')
    end.

(** [try { body } catch (e) { handler e }] *)
Definition tryCatch {A} (body : M A) (handler : Exn -> M A) : M A :=
  fun s =>
    match body s with
    | (Returned a, s') => (Returned a, s')
    | (Thrown e, s') => handler e s'
    end.

(** [try { body } finally { final }]: [final] always runs; if it throws, its
    exception replaces the completion of [body]. *)
Definition tryFinally {A} (body : M A) (final : M unit) : M A :=
  fun s =>
    match body s with
    | (r, s') =>
        match final s' with
        | (Returned _, s'') => (r, s'')
        | (Thrown e, s'') => (Thrown e, s'')
        end
    end.

Declare Scope js_scope.
Delimit Scope js_scope with js.
Notation "x <- m ;; k" := (bind m (fun x => k))
  (at level 100, m at next level, k at level 200, right associativity) : js_scope.
Notation "m ;; k" := (bind m (fun _ => k))
  (at level 100, k at level 200, right associativity) : js_scope.
Local Open Scope js_scope.

Definition gets {A} (f : State -> A) : M A := fun s => (Returned (f s), s).

Definition modify (f : State -> State) : M unit := fun s => (Returned tt, f s).

Definition withSubscribers (f : gmap jsstring (list callback) -> gmap jsstring (list callback))
    (s : State) : State :=
  {| dbOptions := dbOptions s; pgInstance := pgInstance s;
     subscribers := f (subscribers s);
     connects := connects s; sent := sent s; handlers := handlers s;
     calls := calls s |}.

Definition withSent (q : Query) (s : State) : State :=
  {| dbOptions := dbOptions s; pgInstance := pgInstance s;
     subscribers := subscribers s;
     connects := connects s; sent := sent s ++ [q]; handlers := handlers s;
     calls := calls s |}.

Definition withConnect (c : ClientConfig) (s : State) : State :=
  {| dbOptions := dbOptions s; pgInstance := pgInstance s;
     subscribers := subscribers s;
     connects := connects s ++ [c]; sent := sent s; handlers := handlers s;
     calls := calls s |}.

Definition withHandler (c : ClientConfig) (s : State) : State :=
  {| dbOptions := dbOptions s; pgInstance := pgInstance s;
     subscribers := subscribers s;
     connects := connects s; sent := sent s; handlers := handlers s ++ [c];
     calls := calls s |}.

Definition withCall (c : callback * option jsstring) (s : State) : State :=
  {| dbOptions := dbOptions s; pgInstance := pgInstance s;
     subscribers := subscribers s;
     connects := connects s; sent := sent s; handlers := handlers s;
     calls := calls s ++ [c] |}.

Definition withInstance (i : PGInstance) (s : State) : State :=
  {| dbOptions := dbOptions s; pgInstance := Some i;
     subscribers := subscribers s;
     connects := connects s; sent := sent s; handlers := handlers s;
     calls := calls s |}.

Definition withOptions (o : InitOptions) (s : State) : State :=
  {| dbOptions := Some o; pgInstance := pgInstance s;
     subscribers := subscribers s;
     connects := connects s; sent := sent s; handlers := handlers s;
     calls := calls s |}.

(** The state of a freshly loaded module. *)
Definition initialState : State :=
  {| dbOptions := None; pgInstance := None; subscribers := ∅;
     connects := []; sent := []; handlers := []; calls := [] |}.

(** ** The program *)

(** The closure returned by [subscribe]: the variables it captures. *)
Record Unsubscribe := {
  u_pubSubClient : ClientConfig;
  u_channelLockId : Z;
  u_channel : jsstring;
  u_onNotification : callback
}.

Definition lockQuery (channelLockId : Z) : Query :=
  {| text := str "SELECT pg_advisory_lock($1)"; values := [VNumber channelLockId] |}.

Definition unlockQuery (channelLockId : Z) : Query :=
  {| text := str "SELECT pg_advisory_unlock($1)"; values := [VNumber channelLockId] |}.

Definition listenQuery (channel : jsstring) : Query :=
  {| text := str "LISTEN " ++ JSON.stringify channel; values := [] |}.

Definition unlistenQuery (channel : jsstring) : Query :=
  {| text := str "UNLISTEN " ++ JSON.stringify channel; values := [] |}.

Definition notifyQuery (channel message : jsstring) : Query :=
  {| text := str "SELECT pg_notify($1, $2)";
     values := [VString channel; VString message] |}.

Definition isListen (q : Query) : bool :=
  JsString.starts_with (str "LISTEN ") (text q).

Definition isUnlisten (q : Query) : bool :=
  JsString.starts_with (str "UNLISTEN ") (text q).

Definition jsstring_eqb (a b : jsstring) : bool := bool_decide (a = b).

Definition notInitialized : Exn := Error (str "Access db before calling init()").

Definition noSslSupport : jsstring := str "The server does not support SSL connections".

(** Reading a property of [undefined]. *)
Definition typeError : Exn :=
  Error (str "Cannot read properties of undefined").

(** Calling a method the value does not have: [subs.add is not a function]. *)
Definition notAFunction (method : jsstring) : Exn :=
  Error (str "subs." ++ method ++ str " is not a function").

Definition init (initOptions : InitOptions) : M unit :=
  modify (withOptions initOptions).

(** The [ssl] constant computed at the top of [getPGInstance]. *)
Definition sslOption (mode : SslMode) : SslOption :=
  match mode with
  | SslPrefer => ssl_undefined
  | SslObject p =>
      ssl_object {| rejectUnauthorized := rejectUnauthorized p; ca := ca p |}
  | SslFalse => ssl_false
  end.

Definition isPrefer (mode : SslMode) : bool :=
  match mode with SslPrefer => true | _ => false end.

Section Program.

Variable world : World.

(** [await client.connect()] *)
Definition connect (client : ClientConfig) : M unit :=
  fun s =>
    match connectOutcome world (connects s) client with
    | None => (Returned tt, withConnect client s)
    | Some e => (Thrown e, withConnect client s)
    end.

(** [await pubSubClient.query(text, values)] *)
Definition query (q : Query) : M unit :=
  fun s =>
    match queryOutcome world (sent s) q with
    | None => (Returned tt, withSent q s)
    | Some e => (Thrown e, withSent q s)
    end.

(** [sub(payload)] *)
Definition call (sub : callback) (arg : option jsstring) : M unit :=
  fun s =>
    match callOutcome world (calls s) sub arg with
    | None => (Returned tt, withCall (sub, arg) s)
    | Some e => (Thrown e, withCall (sub, arg) s)
    end.

(** [subs.forEach(f)] *)
Fixpoint forEach (subs : list callback) (f : callback -> M unit) : M unit :=
  match subs with
  | [] => ret tt
  | sub :: rest => f sub ;; forEach rest f
  end.

(** The handler of ['notification'] events armed by [getPGInstance]. *)
Definition onNotificationEvent (notification : Notification) : M unit :=
  subs <- gets (fun s => getProperty (subscribers s) (channel notification)) ;;
  match subs with
  | Undefined => ret tt
  | Inherited => throw (notAFunction (str "forEach"))
  | OwnSet subs => forEach subs (fun sub => call sub (payload notification))
  end.

Definition getPGInstance : M PGInstance :=
  opts <- gets dbOptions ;;
  match opts with
  | None => throw notInitialized
  | Some opts =>
      inst <- gets pgInstance ;;
      match inst with
      | Some inst => ret inst
      | None =>
          let ssl0 := sslOption (ssl opts) in
          let pgPool :=
            {| cfg_connectionString := connectionString opts; cfg_ssl := ssl0 |} in
          let client :=
            {| cfg_connectionString := connectionString opts; cfg_ssl := ssl0 |} in
          pc <- tryCatch
                  (connect client ;; ret (pgPool, client))
                  (fun err =>
                     if isPrefer (ssl opts) && instanceofError err
                        && jsstring_eqb (message err) noSslSupport
                     then
                       let pgPool :=
                         {| cfg_connectionString := connectionString opts;
                            cfg_ssl := ssl_false |} in
                       let client :=
                         {| cfg_connectionString := connectionString opts;
                            cfg_ssl := ssl_false |} in
                       connect client ;; ret (pgPool, client)
                     else throw err) ;;
          modify (withHandler (snd pc)) ;;
          let inst := {| pubSubClient := snd pc; pool := fst pc |} in
          modify (withInstance inst) ;;
          ret inst
      end
  end.

Definition subscribe (channel : jsstring) (onNotification : callback)
    : M Unsubscribe :=
  inst <- getPGInstance ;;
  let channelLockId := hashChannel channel in
  query (lockQuery channelLockId) ;;
  tryFinally
    (subs <- gets (fun s => getProperty (subscribers s) channel) ;;
     match subs with
     | OwnSet subs =>
         modify (withSubscribers <[channel := JsSet.add onNotification subs]>)
     | Inherited => throw (notAFunction (str "add"))
     | Undefined =>
         modify (withSubscribers <[channel := [onNotification]]>) ;;
         tryCatch
           (query (listenQuery channel))
           (fun e =>
              subs <- gets (fun s => getProperty (subscribers s) channel) ;;
              match subs with
              | OwnSet subs =>
                  modify (withSubscribers
                            <[channel := JsSet.delete onNotification subs]>)
              | Inherited => throw (notAFunction (str "delete"))
              | Undefined => throw typeError
              end ;;
              throw e)
     end)
    (query (unlockQuery channelLockId)) ;;
  ret {| u_pubSubClient := pubSubClient inst;
         u_channelLockId := channelLockId;
         u_channel := channel;
         u_onNotification := onNotification |}.

(** Calling the closure returned by [subscribe]. *)
Definition unsubscribe (u : Unsubscribe) : M unit :=
  query (lockQuery (u_channelLockId u)) ;;
  tryFinally
    (subs <- gets (fun s => getProperty (subscribers s) (u_channel u)) ;;
     match subs with
     | Undefined => ret tt
     | Inherited => throw (notAFunction (str "delete"))
     | OwnSet subs =>
         let subs := JsSet.delete (u_onNotification u) subs in
         modify (withSubscribers <[u_channel u := subs]>) ;;
         if JsSet.size subs =? 0 then
           query (unlistenQuery (u_channel u)) ;;
           modify (withSubscribers (delete (u_channel u)))
         else ret tt
     end)
    (query (unlockQuery (u_channelLockId u))).

Definition getPGPool : M ClientConfig :=
  inst <- getPGInstance ;; ret (pool inst).

Definition publish (channel message : jsstring) : M unit :=
  inst <- getPGInstance ;;
  query (notifyQuery channel message).

End Program.

(** ** What a call did *)

(** The queries sent between two states, oldest first. *)
Definition issued (before after : State) : list Query :=
  drop (length (sent before)) (sent after).

(** The callback invocations made between two states, oldest first. *)
Definition invoked (before after : State) : list (callback * option jsstring) :=
  drop (length (calls before)) (calls after).

(** How many times [sub] is among the invocations [l]. *)
Definition deliveries (sub : callback) (l : list (callback * option jsstring)) : nat :=
  length (List.filter (fun c => bool_decide (fst c = sub)) l).

(** The states between calls: those that calls of the exported functions,
    of the unsubscribe closures and of the notification handler lead to from
    a freshly loaded module when each call ends before the next one starts.
    The states a call passes through at its [await]s are not among them.
    Every record of captured variables is taken as a possible closure. *)
Inductive Reachable (world : World) : State -> Prop :=
| reach_initial : Reachable world initialState
| reach_init o st :
    Reachable world st -> Reachable world (snd (init o st))
| reach_getPGInstance st :
    Reachable world st -> Reachable world (snd (getPGInstance world st))
| reach_subscribe ch sub st :
    Reachable world st -> Reachable world (snd (subscribe world ch sub st))
| reach_unsubscribe u st :
    Reachable world st -> Reachable world (snd (unsubscribe world u st))
| reach_publish ch msg st :
    Reachable world st -> Reachable world (snd (publish world ch msg st))
| reach_notification n st :
    Reachable world st -> Reachable world (snd (onNotificationEvent world n st)).

(** Every subscriber set holds each callback at most once. *)
Definition noDuplicates (st : State) : Prop :=
  forall ch subs, subscribers st !! ch = Some subs -> NoDup subs.

(** ** Sample surroundings and inputs *)

Module Samples.
Import JsString.

(** A code unit [JSON.stringify] copies unchanged and that is not a double
    quote. *)
Definition plain (c : Z) : bool :=
  negb (c =? quotation_mark) && negb (c =? reverse_solidus) && (32 <=? c)
  && negb (JSON.isLeadingSurrogate c) && negb (JSON.isTrailingSurrogate c).

(** A channel name with a double quote in it. *)
Definition hostileChannel : jsstring :=
  str "a" ++ [quotation_mark] ++ str "; DROP TABLE b; --".

Definition connectionLost : Exn := Error (str "Connection terminated unexpectedly").

(** Every connection attempt, query and callback succeeds. *)
Definition healthy : World :=
  {| connectOutcome := fun _ _ => None;
     queryOutcome := fun _ _ => None;
     callOutcome := fun _ _ _ => None |}.

(** The server rejects every LISTEN command. *)
Definition listenRejected : World :=
  {| connectOutcome := fun _ _ => None;
     queryOutcome := fun _ q => if isListen q then Some connectionLost else None;
     callOutcome := fun _ _ _ => None |}.

(** The server rejects the first UNLISTEN command it receives. *)
Definition firstUnlistenRejected : World :=
  {| connectOutcome := fun _ _ => None;
     queryOutcome := fun hist q =>
       if isUnlisten q && negb (existsb isUnlisten hist)
       then Some connectionLost else None;
     callOutcome := fun _ _ _ => None |}.

(** The server has no SSL support: a connection that does not switch SSL
    off is refused with the driver's message. *)
Definition noSslServer : World :=
  {| connectOutcome := fun _ c =>
       match cfg_ssl c with
       | ssl_false => None
       | _ => Some (Error noSslSupport)
       end;
     queryOutcome := fun _ _ => None;
     callOutcome := fun _ _ _ => None |}.

(** The second callback registered throws when it is called. *)
Definition secondCallbackThrows : World :=
  {| connectOutcome := fun _ _ => None;
     queryOutcome := fun _ _ => None;
     callOutcome := fun _ sub _ =>
       if bool_decide (sub = Callback 2) then Some (Error (str "boom")) else None |}.

Definition preferOptions : InitOptions :=
  {| connectionString := str "postgres://briefer@db/briefer"; ssl := SslPrefer |}.

(** The module after [init(preferOptions)]. *)
Definition configured : State := snd (init preferOptions initialState).

Definition docs42 : jsstring := str "docs:42".

(** The client, the instance and the closures that [subscribe] yields on
    [docs42] from [configured] when the first connection succeeds. *)
Definition negotiated : ClientConfig :=
  {| cfg_connectionString := connectionString preferOptions;
     cfg_ssl := ssl_undefined |}.

Definition instance : PGInstance :=
  {| pubSubClient := negotiated; pool := negotiated |}.

Definition closure (sub : callback) : Unsubscribe :=
  {| u_pubSubClient := negotiated;
     u_channelLockId := hashChannel docs42;
     u_channel := docs42;
     u_onNotification := sub |}.

End Samples.

(** ** Further notions used by the properties below *)

(** The hash without the reduction to 32 bits at each step. *)
Definition hashPolynomial (channel : jsstring) (hash : Z) : Z :=
  fold_left (fun h c => h * 31 + c) channel hash.

Definition isAdvisoryLock (q : Query) : bool :=
  JsString.starts_with (str "SELECT pg_advisory_lock(") (text q).

Definition isAdvisoryUnlock (q : Query) : bool :=
  JsString.starts_with (str "SELECT pg_advisory_unlock(") (text q).

(** No channel is registered with an empty set. *)
Definition nonEmptySets (st : State) : Prop :=
  forall ch subs, subscribers st !! ch = Some subs -> subs <> [].

(** ** The Prisma client and [recoverFromNotFound] *)

Module PrismaAccess.

Record PrismaClient := { datasourceUrl : jsstring }.

(** The module state with the [singleton] variable beside the others. *)
Record ModuleState := { singleton : option PrismaClient; pubsub : State }.

Definition freshModule : ModuleState :=
  {| singleton := None; pubsub := initialState |}.

Definition accessBeforeInit : Exn := Error (str "Access prisma before calling init()").

(** [init], with both assignments. *)
Definition init (initOptions : InitOptions) (m : ModuleState) : ModuleState :=
  {| singleton := Some {| datasourceUrl := connectionString initOptions |};
     pubsub := withOptions initOptions (pubsub m) |}.

Definition prisma (m : ModuleState) : Completion PrismaClient :=
  match singleton m with
  | None => Thrown accessBeforeInit
  | Some client => Returned client
  end.

(** How a promise settles, for any type of rejection values. *)
Inductive Settled (E A : Type) :=
| Fulfilled (a : A)
| Rejected (e : E).
Arguments Fulfilled {E A} a.
Arguments Rejected {E A} e.

Definition notFoundCode : jsstring := str "P2025".

Section Recover.

Context {E A : Type}.

(** [e instanceof Prisma.PrismaClientKnownRequestError] and [e.code] *)
Variable isKnownRequestError : E -> bool.
Variable code : E -> jsstring.

(** The result is [A | null]: [None] is [null]. *)
Definition recoverFromNotFound (promise : Settled E A) : Settled E (option A) :=
  match promise with
  | Fulfilled a => Fulfilled (Some a)
  | Rejected e =>
      if isKnownRequestError e then
        if jsstring_eqb (code e) notFoundCode then Fulfilled None
        else Rejected e
      else Rejected e
  end.

End Recover.

End PrismaAccess.

(** ** More sample surroundings and inputs *)

Module MoreSamples.

(** No connection can be established. *)
Definition unreachable : World :=
  {| connectOutcome := fun _ _ => Some Samples.connectionLost;
     queryOutcome := fun _ _ => None;
     callOutcome := fun _ _ _ => None |}.

(** The server rejects every advisory lock request. *)
Definition lockRejected : World :=
  {| connectOutcome := fun _ _ => None;
     queryOutcome := fun _ q =>
       if isAdvisoryLock q
       then Some Samples.connectionLost else None;
     callOutcome := fun _ _ _ => None |}.

(** The server rejects every advisory unlock request. *)
Definition unlockRejected : World :=
  {| connectOutcome := fun _ _ => None;
     queryOutcome := fun _ q =>
       if isAdvisoryUnlock q
       then Some Samples.connectionLost else None;
     callOutcome := fun _ _ _ => None |}.

(** The server rejects every UNLISTEN command. *)
Definition unlistenRejected : World :=
  {| connectOutcome := fun _ _ => None;
     queryOutcome := fun _ q => if isUnlisten q then Some Samples.connectionLost else None;
     callOutcome := fun _ _ _ => None |}.

Definition strictOptions : InitOptions :=
  {| connectionString := str "postgres://briefer@db/briefer";
     ssl := SslObject {| rejectUnauthorized := Some true; ca := None |} |}.

Definition otherOptions : InitOptions :=
  {| connectionString := str "postgres://briefer@replica/briefer"; ssl := SslFalse |}.

(** The module after [init(strictOptions)]. *)
Definition strictConfigured : State := snd (init strictOptions initialState).

(** The module after [init(preferOptions)] and a first [getPGInstance]. *)
Definition connected : State := snd (getPGInstance Samples.healthy Samples.configured).

Definition jobs : jsstring := str "jobs".

(** A channel named like a property every object inherits. *)
Definition constructorName : jsstring := str "constructor".

Definition authenticationFailed : Exn :=
  Error (str "password authentication failed for user").

(** The server has no SSL support and refuses the password: a connection
    that does not switch SSL off is refused with the driver's message, one
    that does is refused as well. *)
Definition noSslAndRefused : World :=
  {| connectOutcome := fun _ c =>
       match cfg_ssl c with
       | ssl_false => Some authenticationFailed
       | _ => Some (Error noSslSupport)
       end;
     queryOutcome := fun _ _ => None;
     callOutcome := fun _ _ _ => None |}.

End MoreSamples.

(** * Properties *)

(** ** Strings and quoting *)

Module QuotingFacts.
Import JsString Samples.

Lemma quoteCodePoint_plain c : plain c = true -> JSON.quoteCodePoint c = [c].
Proof.
  unfold plain, JSON.quoteCodePoint, quotation_mark, reverse_solidus.
  intros H.
  repeat (apply andb_prop in H; destruct H as [H ?]).
  destruct (JSON.isLeadingSurrogate c); [discriminate|].
  destruct (JSON.isTrailingSurrogate c); [discriminate|].
  assert (32 <= c) by lia.
  repeat match goal with
         | |- context [?a =? ?b] =>
             destruct (Z.eqb_spec a b); [simpl in *; try lia; try discriminate|]
         end.
  destruct (Z.ltb_spec c 32); [lia|]. reflexivity.
Qed.

Lemma plain_not_leading c : plain c = true -> JSON.isLeadingSurrogate c = false.
Proof.
  unfold plain. intros H.
  repeat (apply andb_prop in H; destruct H as [H ?]).
  destruct (JSON.isLeadingSurrogate c); [discriminate|reflexivity].
Qed.

Lemma quoteCodePoints_plain s :
  forallb plain s = true -> JSON.quoteCodePoints s = s.
Proof.
  induction s as [|c rest IH]; [reflexivity|].
  intros H. apply andb_prop in H. destruct H as [Hc Hrest].
  specialize (IH Hrest).
  change (JSON.quoteCodePoints (c :: rest)) with
    (match rest with
     | d :: rest' =>
         if JSON.isLeadingSurrogate c && JSON.isTrailingSurrogate d
         then c :: d :: JSON.quoteCodePoints rest'
         else JSON.quoteCodePoint c ++ JSON.quoteCodePoints rest
     | [] => JSON.quoteCodePoint c
     end).
  rewrite (plain_not_leading c Hc), (quoteCodePoint_plain c Hc).
  destruct rest as [|d rest']; [reflexivity|].
  simpl andb. cbv iota. rewrite IH. reflexivity.
Qed.

Lemma quoteIdent_plain s :
  forallb plain s = true ->
  flat_map (fun c => if c =? quotation_mark then [c; c] else [c]) s = s.
Proof.
  induction s as [|c rest IH]; [reflexivity|].
  intros H. apply andb_prop in H. destruct H as [Hc Hrest].
  simpl. rewrite (IH Hrest).
  unfold plain in Hc.
  destruct (c =? quotation_mark); [discriminate|reflexivity].
Qed.

(** On channel names made of plain characters the text the program builds
    is the SQL quoting. *)
Lemma stringify_plain_is_quoteIdent s :
  forallb plain s = true -> JSON.stringify s = Sql.quoteIdent s.
Proof.
  intros H. unfold JSON.stringify, Sql.quoteIdent.
  rewrite (quoteCodePoints_plain s H), (quoteIdent_plain s H). reflexivity.
Qed.

Lemma scanBody_quoted (s : jsstring) :
  Sql.scanBody
    (flat_map (fun c => if c =? quotation_mark then [c; c] else [c]) s
       ++ [quotation_mark]) = Some (s, []).
Proof.
  induction s as [|c rest IH]; [reflexivity|].
  cbn [flat_map]. destruct (Z.eqb_spec c quotation_mark) as [->|Hne].
  - cbn [app Sql.scanBody]. rewrite Z.eqb_refl, IH. reflexivity.
  - cbn [app Sql.scanBody].
    destruct (Z.eqb_spec c quotation_mark); [contradiction|].
    rewrite IH. reflexivity.
Qed.

Lemma utf8Bytes_range x : 1 <= Sql.utf8Bytes x <= 3.
Proof. unfold Sql.utf8Bytes. repeat case_match; lia. Qed.

Lemma utf8Length_nonneg_upto n (s : t) :
  (length s <= n)%nat -> 0 <= Sql.utf8Length s.
Proof.
  revert s. induction n as [|n IH]; intros s Hlen.
  - destruct s; [cbn; lia|cbn in Hlen; lia].
  - destruct s as [|c [|d rest']]; [cbn; lia| |].
    + cbn. pose proof (utf8Bytes_range c). lia.
    + change (Sql.utf8Length (c :: d :: rest')) with
        (if JSON.isLeadingSurrogate c && JSON.isTrailingSurrogate d
         then 4 + Sql.utf8Length rest'
         else Sql.utf8Bytes c + Sql.utf8Length (d :: rest')).
      cbn in Hlen.
      pose proof (utf8Bytes_range c).
      pose proof (IH rest' ltac:(lia)).
      pose proof (IH (d :: rest') ltac:(cbn; lia)).
      destruct (JSON.isLeadingSurrogate c && JSON.isTrailingSurrogate d); lia.
Qed.

Lemma utf8Length_nonneg (s : t) : 0 <= Sql.utf8Length s.
Proof. apply (utf8Length_nonneg_upto (length s)). lia. Qed.

Lemma clip_fits_upto n (s : t) budget :
  (length s <= n)%nat -> Sql.utf8Length s <= budget -> Sql.clip budget s = s.
Proof.
  revert s budget. induction n as [|n IH]; intros s budget Hlen Hfit.
  - destruct s; [reflexivity|cbn in Hlen; lia].
  - destruct s as [|c rest]; [reflexivity|].
    destruct rest as [|d rest'].
    + cbn in *. destruct (Z.leb_spec (Sql.utf8Bytes c) budget); [reflexivity|lia].
    + change (Sql.utf8Length (c :: d :: rest')) with
        (if JSON.isLeadingSurrogate c && JSON.isTrailingSurrogate d
         then 4 + Sql.utf8Length rest'
         else Sql.utf8Bytes c + Sql.utf8Length (d :: rest')) in Hfit.
      change (Sql.clip budget (c :: d :: rest')) with
        (if JSON.isLeadingSurrogate c && JSON.isTrailingSurrogate d
         then if 4 <=? budget then c :: d :: Sql.clip (budget - 4) rest' else []
         else if Sql.utf8Bytes c <=? budget
              then c :: Sql.clip (budget - Sql.utf8Bytes c) (d :: rest') else []).
      destruct (JSON.isLeadingSurrogate c && JSON.isTrailingSurrogate d).
      * pose proof (utf8Length_nonneg rest').
        destruct (Z.leb_spec 4 budget); [|lia].
        rewrite (IH rest' (budget - 4)); [reflexivity|cbn in Hlen; lia|lia].
      * pose proof (utf8Length_nonneg (d :: rest')).
        destruct (Z.leb_spec (Sql.utf8Bytes c) budget); [|lia].
        rewrite (IH (d :: rest') (budget - Sql.utf8Bytes c));
          [reflexivity|cbn in Hlen |- *; lia|lia].
Qed.

(** The SQL quoting is safe for a name that is not empty and fits in an
    identifier: the server reads back the name and nothing is left after
    the closing quote. *)
Lemma scanIdent_quoteIdent s :
  s <> [] -> Sql.utf8Length s <= Sql.maxIdentifierBytes ->
  Sql.scanIdent (Sql.quoteIdent s) = Some (s, []).
Proof.
  intros Hne Hfit.
  unfold Sql.scanIdent, Sql.quoteIdent. rewrite Z.eqb_refl.
  rewrite scanBody_quoted.
  rewrite (clip_fits_upto (length s) s _ (Nat.le_refl _) Hfit).
  destruct s; [contradiction|reflexivity].
Qed.

(** C2, at a failing input.  For the channel name made of [a], a double
    quote and [; DROP TABLE b; --], the text of the LISTEN and UNLISTEN
    commands embeds the JSON encoding of the name, in which the inner
    double quote is preceded by a backslash and not doubled.  It is not
    the SQL quoting of the name, and read as a delimited identifier it
    ends after [a\], leaving [; DROP TABLE b; --] and a double quote as
    further command text; the SQL quoting of the same name reads back as
    the whole name with nothing left. *)
Theorem listen_text_not_sql_quoted :
  text (listenQuery hostileChannel)
    = str "LISTEN " ++ [quotation_mark] ++ str "a\" ++ [quotation_mark]
        ++ str "; DROP TABLE b; --" ++ [quotation_mark]
  /\ text (unlistenQuery hostileChannel)
    = str "UNLISTEN " ++ JSON.stringify hostileChannel
  /\ JSON.stringify hostileChannel <> Sql.quoteIdent hostileChannel
  /\ Sql.scanIdent (JSON.stringify hostileChannel)
    = Some (str "a\", str "; DROP TABLE b; --" ++ [quotation_mark])
  /\ Sql.scanIdent (Sql.quoteIdent hostileChannel) = Some (hostileChannel, []).
Proof.
  repeat split; try (vm_compute; reflexivity).
  vm_compute. discriminate.
Qed.

End QuotingFacts.

(** ** The lock token *)

Module HashFacts.

Lemma toInt32_range x : - 2 ^ 31 <= toInt32 x <= 2 ^ 31 - 1.
Proof.
  unfold toInt32.
  pose proof (Z.mod_pos_bound (x + 2 ^ 31) (2 ^ 32) ltac:(lia)). lia.
Qed.

Lemma toInt32_id x : - 2 ^ 31 <= x <= 2 ^ 31 - 1 -> toInt32 x = x.
Proof.
  intros H. unfold toInt32. rewrite Z.mod_small; lia.
Qed.

Lemma hashLoop_range channel hash :
  - 2 ^ 31 <= hash <= 2 ^ 31 - 1 ->
  - 2 ^ 31 <= hashLoop channel hash <= 2 ^ 31 - 1.
Proof.
  revert hash. induction channel as [|c rest IH]; intros hash H.
  - exact H.
  - apply IH. apply toInt32_range.
Qed.

(** The arithmetic of the loop body stays within the integers a number
    represents exactly, so [hash * 31 + c] is computed without rounding. *)
Lemma hashStep_exact hash c :
  - 2 ^ 31 <= hash <= 2 ^ 31 - 1 -> 0 <= c < 65536 ->
  - 2 ^ 53 < hash * 31 + c < 2 ^ 53.
Proof. lia. Qed.

(** A channel whose accumulated hash is the least 32-bit integer. *)
Example hashChannel_polygenelubricants :
  hashLoop (str "polygenelubricants") 0 = - 2 ^ 31
  /\ hashChannel (str "polygenelubricants") = 2 ^ 31.
Proof. split; vm_compute; reflexivity. Qed.

(** C3, counterexample.  For the channel [polygenelubricants] the loop ends
    with the least 32-bit integer, whose absolute value 2^31 is returned:
    the token is not a signed 32-bit integer. *)
Lemma hashChannel_outside_int32 :
  JsString.well_formed (str "polygenelubricants")
  /\ hashChannel (str "polygenelubricants") = 2 ^ 31
  /\ ~ (- 2 ^ 31 <= hashChannel (str "polygenelubricants") <= 2 ^ 31 - 1).
Proof.
  split; [|split].
  - unfold JsString.well_formed. vm_compute.
    repeat (constructor; [split; [discriminate | reflexivity]|]). constructor.
  - vm_compute. reflexivity.
  - vm_compute. intros [_ H]. apply H. reflexivity.
Qed.

(** C3, amended.  [hashChannel] is a function of the channel name alone,
    and its result lies between 0 and 2^31 inclusive; it is 2^31, the one
    value outside the signed 32-bit range, exactly when the loop ends
    with -2^31. *)
Theorem hashChannel_deterministic_bounded (channel : jsstring) :
  (forall channel', channel' = channel -> hashChannel channel' = hashChannel channel)
  /\ 0 <= hashChannel channel <= 2 ^ 31
  /\ (hashChannel channel = 2 ^ 31 <-> hashLoop channel 0 = - 2 ^ 31).
Proof.
  pose proof (hashLoop_range channel 0 ltac:(lia)) as H.
  unfold hashChannel. repeat split.
  - intros channel' ->. reflexivity.
  - lia.
  - lia.
  - lia.
  - intros ->. reflexivity.
Qed.

End HashFacts.

(** ** Frame properties *)

Section Frames.

Variable world : World.

Lemma drop_length_app {A} (l k : list A) : drop (length l) (l ++ k) = k.
Proof. induction l; simpl; auto. Qed.

Lemma issued_app st st' qs : sent st' = sent st ++ qs -> issued st st' = qs.
Proof. unfold issued. intros ->. apply drop_length_app. Qed.

Lemma invoked_app st st' cs : calls st' = calls st ++ cs -> invoked st st' = cs.
Proof. unfold invoked. intros ->. apply drop_length_app. Qed.

(** [getPGInstance] touches neither the registry nor the query log. *)
Lemma getPGInstance_frame st :
  let st' := snd (getPGInstance world st) in
  subscribers st' = subscribers st /\ sent st' = sent st
  /\ calls st' = calls st /\ dbOptions st' = dbOptions st.
Proof.
  unfold getPGInstance, bind, tryCatch, gets, modify, ret, throw, connect.
  repeat (case_match; simplify_eq/=); auto.
Qed.

(** Once constructed the instance is handed out again as it is. *)
Lemma getPGInstance_memo st o i :
  dbOptions st = Some o -> pgInstance st = Some i ->
  getPGInstance world st = (Returned i, st).
Proof.
  intros Ho Hi. unfold getPGInstance, bind, gets, ret. cbn.
  rewrite Ho, Hi. reflexivity.
Qed.

Lemma getPGInstance_returned st i st' :
  getPGInstance world st = (Returned i, st') ->
  pgInstance st' = Some i /\ is_Some (dbOptions st').
Proof.
  unfold getPGInstance, bind, tryCatch, gets, modify, ret, throw, connect.
  intros H. repeat (case_match; simplify_eq/=); eauto.
Qed.

End Frames.

(** ** The set operations *)

Module SetFacts.

Lemma elem_of_add x y s : x ∈ JsSet.add y s <-> x = y \/ x ∈ s.
Proof.
  unfold JsSet.add, JsSet.has. case_bool_decide.
  - split; [auto|]. intros [->|]; auto.
  - rewrite elem_of_app, list_elem_of_singleton. tauto.
Qed.

Lemma elem_of_delete x y s : x ∈ JsSet.delete y s <-> x <> y /\ x ∈ s.
Proof.
  unfold JsSet.delete. rewrite !list_elem_of_In, filter_In, negb_true_iff.
  rewrite bool_decide_eq_false. tauto.
Qed.

Lemma delete_absent x s : x ∉ s -> JsSet.delete x s = s.
Proof.
  unfold JsSet.delete. induction s as [|y s IH]; [reflexivity|].
  rewrite not_elem_of_cons. intros [Hne Hs]. simpl.
  rewrite bool_decide_eq_false_2 by congruence. simpl. f_equal. auto.
Qed.

Lemma delete_only x : JsSet.delete x [x] = [].
Proof. unfold JsSet.delete. simpl. rewrite bool_decide_eq_true_2; reflexivity. Qed.

Lemma delete_keeps_other x y s : y ∈ s -> y <> x -> JsSet.delete x s <> [].
Proof.
  intros Hy Hne Hnil.
  assert (y ∈ JsSet.delete x s) as H by (apply elem_of_delete; auto).
  rewrite Hnil in H. inversion H.
Qed.

Lemma size_zero s : (JsSet.size s =? 0) = true <-> s = [].
Proof.
  unfold JsSet.size. rewrite Z.eqb_eq. destruct s; simpl; split; try done; lia.
Qed.

Lemma NoDup_add x s : NoDup s -> NoDup (JsSet.add x s).
Proof.
  unfold JsSet.add, JsSet.has. intros H. case_bool_decide; [done|].
  apply NoDup_app. split; [done|]. split.
  - intros y Hy Hx. apply list_elem_of_singleton in Hx. congruence.
  - apply NoDup_singleton.
Qed.

Lemma NoDup_delete x s : NoDup s -> NoDup (JsSet.delete x s).
Proof.
  unfold JsSet.delete. rewrite !NoDup_ListNoDup. apply List.NoDup_filter.
Qed.

End SetFacts.

(** ** Property lookup *)

Lemma getProperty_own (o : gmap jsstring (list callback)) key subs :
  o !! key = Some subs -> getProperty o key = OwnSet subs.
Proof. unfold getProperty. intros ->. reflexivity. Qed.

Lemma getProperty_OwnSet (o : gmap jsstring (list callback)) key subs :
  getProperty o key = OwnSet subs -> o !! key = Some subs.
Proof.
  unfold getProperty. destruct (o !! key); [congruence|].
  destruct (inherited key); discriminate.
Qed.

Lemma getProperty_Undefined (o : gmap jsstring (list callback)) key :
  getProperty o key = Undefined <-> o !! key = None /\ inherited key = false.
Proof.
  unfold getProperty. destruct (o !! key); [split; [discriminate|intros [? _]; discriminate]|].
  destruct (inherited key); split; try discriminate; auto.
  intros [_ ?]. discriminate.
Qed.

Lemma getProperty_Inherited (o : gmap jsstring (list callback)) key :
  getProperty o key = Inherited <-> o !! key = None /\ inherited key = true.
Proof.
  unfold getProperty. destruct (o !! key); [split; [discriminate|intros [? _]; discriminate]|].
  destruct (inherited key); split; try discriminate; auto.
  intros [_ ?]. discriminate.
Qed.

Lemma getProperty_no_entry (o : gmap jsstring (list callback)) key :
  o !! key = None -> getProperty o key = Inherited \/ getProperty o key = Undefined.
Proof. unfold getProperty. intros ->. destruct (inherited key); auto. Qed.
(** ** [subscribe] *)

Section SubscribeFacts.

Variable world : World.

Ltac js_unfold :=
  unfold subscribe, unsubscribe, publish, onNotificationEvent,
    bind, tryFinally, tryCatch, gets, modify, ret, throw, query.

Lemma subscribe_enter st inst :
  fst (getPGInstance world st) = Returned inst ->
  exists st1, getPGInstance world st = (Returned inst, st1)
    /\ subscribers st1 = subscribers st /\ sent st1 = sent st.
Proof.
  intros H. destruct (getPGInstance world st) as [r st1] eqn:E.
  simpl in H. subst r. exists st1. split; [done|].
  pose proof (getPGInstance_frame world st) as F. rewrite E in F. simpl in F.
  tauto.
Qed.

(** The path of [subscribe] when the channel has a subscriber set. *)
Lemma subscribe_existing_set ch sub st inst subs r st' :
  fst (getPGInstance world st) = Returned inst ->
  queryOutcome world (sent st) (lockQuery (hashChannel ch)) = None ->
  subscribers st !! ch = Some subs ->
  subscribe world ch sub st = (r, st') ->
  issued st st' = [lockQuery (hashChannel ch); unlockQuery (hashChannel ch)]
  /\ subscribers st' = <[ch := JsSet.add sub subs]> (subscribers st).
Proof.
  intros Hget Hlock Hsome.
  destruct (subscribe_enter st inst Hget) as (st1 & E & Hs & Hq).
  unfold subscribe. unfold bind at 1. rewrite E.
  js_unfold. rewrite Hq, Hlock. cbn.
  rewrite Hs, (getProperty_own _ _ _ Hsome). cbn. intros H.
  repeat (case_match; simplify_eq/=);
    (split; [apply issued_app; cbn; rewrite Hq, <- ?app_assoc; reflexivity
            | rewrite Hs; reflexivity]).
Qed.

(** The path of [subscribe] when the channel has none. *)
Lemma subscribe_new_set ch sub st inst r st' :
  fst (getPGInstance world st) = Returned inst ->
  queryOutcome world (sent st) (lockQuery (hashChannel ch)) = None ->
  getProperty (subscribers st) ch = Undefined ->
  subscribe world ch sub st = (r, st') ->
  issued st st'
    = [lockQuery (hashChannel ch); listenQuery ch; unlockQuery (hashChannel ch)]
  /\ match queryOutcome world (sent st ++ [lockQuery (hashChannel ch)])
             (listenQuery ch) with
     | None => subscribers st' = <[ch := [sub]]> (subscribers st)
     | Some e =>
         subscribers st' = <[ch := []]> (subscribers st)
         /\ (exists e', r = Thrown e')
         /\ (queryOutcome world
               (sent st ++ [lockQuery (hashChannel ch); listenQuery ch])
               (unlockQuery (hashChannel ch)) = None -> r = Thrown e)
     end.
Proof.
  intros Hget Hlock Hnone.
  destruct (subscribe_enter st inst Hget) as (st1 & E & Hs & Hq).
  unfold subscribe. unfold bind at 1. rewrite E.
  js_unfold. rewrite Hq, Hlock. cbn. rewrite Hs, Hnone. cbn.
  rewrite Hq.
  destruct (queryOutcome world (sent st ++ [lockQuery (hashChannel ch)])
              (listenQuery ch)) as [e|] eqn:Hl; cbn.
  - rewrite (getProperty_own _ ch [sub]) by apply lookup_insert_eq.
    cbn. rewrite Hq, <- !app_assoc. cbn.
    rewrite SetFacts.delete_only.
    destruct (queryOutcome world _ (unlockQuery (hashChannel ch))) eqn:Hu; cbn;
      intros H; simplify_eq/=;
      (split; [apply issued_app; cbn; rewrite Hq, <- ?app_assoc; reflexivity|]);
      rewrite insert_insert_eq, Hs;
      (split; [reflexivity|]); split; eauto; intros; congruence.
  - rewrite Hq, <- !app_assoc. cbn.
    destruct (queryOutcome world _ (unlockQuery (hashChannel ch))) eqn:Hu; cbn;
      intros H; simplify_eq/=;
      (split; [apply issued_app; cbn; rewrite Hq, <- ?app_assoc; reflexivity|]);
      rewrite Hs; reflexivity.
Qed.

(** The path of [subscribe] when the channel is named like an inherited
    property: the value read is not a [Set]. *)
Lemma subscribe_inherited_name ch sub st inst r st' :
  fst (getPGInstance world st) = Returned inst ->
  queryOutcome world (sent st) (lockQuery (hashChannel ch)) = None ->
  getProperty (subscribers st) ch = Inherited ->
  subscribe world ch sub st = (r, st') ->
  issued st st' = [lockQuery (hashChannel ch); unlockQuery (hashChannel ch)]
  /\ subscribers st' = subscribers st
  /\ r = match queryOutcome world (sent st ++ [lockQuery (hashChannel ch)])
                  (unlockQuery (hashChannel ch)) with
         | None => Thrown (notAFunction (str "add"))
         | Some e => Thrown e
         end.
Proof.
  intros Hget Hlock Hinh.
  destruct (subscribe_enter st inst Hget) as (st1 & E & Hs & Hq).
  unfold subscribe. unfold bind at 1. rewrite E.
  js_unfold. rewrite Hq, Hlock. cbn. rewrite Hs, Hinh. cbn. rewrite Hq.
  destruct (queryOutcome world _ (unlockQuery (hashChannel ch))) eqn:Hu; cbn;
    intros H; simplify_eq/=;
    (split; [apply issued_app; cbn; rewrite Hq, <- ?app_assoc; reflexivity|]);
    (split; [exact Hs|reflexivity]).
Qed.

End SubscribeFacts.

Lemma isListen_listenQuery ch : isListen (listenQuery ch) = true.
Proof. reflexivity. Qed.

Lemma isListen_lockQuery id : isListen (lockQuery id) = false.
Proof. reflexivity. Qed.

Lemma isListen_unlockQuery id : isListen (unlockQuery id) = false.
Proof. reflexivity. Qed.

Lemma isUnlisten_unlistenQuery ch : isUnlisten (unlistenQuery ch) = true.
Proof. reflexivity. Qed.

Lemma isUnlisten_lockQuery id : isUnlisten (lockQuery id) = false.
Proof. reflexivity. Qed.

Lemma isUnlisten_unlockQuery id : isUnlisten (unlockQuery id) = false.
Proof. reflexivity. Qed.

Lemma add_empty sub : JsSet.add sub [] = [sub].
Proof. reflexivity. Qed.

(** C4, on the code.  Once [subscribe] holds the instance and the advisory
    lock, what it does depends on what it reads at [subscribers[channel]].
    Nothing: it sends the lock, one LISTEN and the unlock, and when the
    LISTEN is accepted the channel's set is the one just created, holding
    this callback alone.  A set: it sends the lock and the unlock only, and
    the set becomes the old members in their order followed by the
    callback, or stays as it is when the callback is a member already.  An
    inherited property, for a channel named [constructor], [toString] and
    the like: the call of [add] throws a [TypeError], no LISTEN is sent, no
    set is created, and what the caller gets is that error (or the
    rejection of the unlock). *)
Theorem subscribe_by_kind_of_channel world ch sub st inst :
  fst (getPGInstance world st) = Returned inst ->
  queryOutcome world (sent st) (lockQuery (hashChannel ch)) = None ->
  let r := fst (subscribe world ch sub st) in
  let st' := snd (subscribe world ch sub st) in
  match getProperty (subscribers st) ch with
  | Undefined =>
      issued st st'
        = [lockQuery (hashChannel ch); listenQuery ch; unlockQuery (hashChannel ch)]
      /\ length (List.filter isListen (issued st st')) = 1%nat
      /\ (queryOutcome world (sent st ++ [lockQuery (hashChannel ch)])
            (listenQuery ch) = None ->
          subscribers st' = <[ch := [sub]]> (subscribers st))
  | OwnSet subs =>
      issued st st' = [lockQuery (hashChannel ch); unlockQuery (hashChannel ch)]
      /\ List.filter isListen (issued st st') = []
      /\ subscribers st'
         = <[ch := if bool_decide (sub ∈ subs) then subs else subs ++ [sub]]>
             (subscribers st)
  | Inherited =>
      issued st st' = [lockQuery (hashChannel ch); unlockQuery (hashChannel ch)]
      /\ List.filter isListen (issued st st') = []
      /\ subscribers st' = subscribers st
      /\ r = match queryOutcome world (sent st ++ [lockQuery (hashChannel ch)])
                     (unlockQuery (hashChannel ch)) with
             | None => Thrown (notAFunction (str "add"))
             | Some e => Thrown e
             end
  end.
Proof.
  intros Hget Hlock r st'. subst r st'.
  destruct (subscribe world ch sub st) as [r st2] eqn:E. cbn [fst snd].
  destruct (getProperty (subscribers st) ch) as [subs| |] eqn:Hprop.
  - apply getProperty_OwnSet in Hprop.
    destruct (subscribe_existing_set world ch sub st inst subs r st2
                Hget Hlock Hprop E) as [Hi Hr].
    rewrite Hi. split; [reflexivity|]. split; [reflexivity|]. exact Hr.
  - destruct (subscribe_inherited_name world ch sub st inst r st2
                Hget Hlock Hprop E) as (Hi & Hs & Hr).
    rewrite Hi. auto.
  - destruct (subscribe_new_set world ch sub st inst r st2 Hget Hlock Hprop E)
      as [Hi Hr].
    rewrite Hi. split; [reflexivity|]. split; [reflexivity|].
    intros Hl. rewrite Hl in Hr. exact Hr.
Qed.

Lemma subscribe_by_kind_of_channel_witness :
  let st := Samples.configured in
  let st1 := snd (subscribe Samples.healthy Samples.docs42 (Callback 1) st) in
  let st2 := snd (subscribe Samples.healthy Samples.docs42 (Callback 2) st1) in
  let bad := subscribe Samples.healthy MoreSamples.constructorName (Callback 1) st in
  (issued st st1
     = [lockQuery (hashChannel Samples.docs42); listenQuery Samples.docs42;
        unlockQuery (hashChannel Samples.docs42)]
   /\ subscribers st1 = <[Samples.docs42 := [Callback 1]]> (subscribers st))
  /\ (issued st1 st2
      = [lockQuery (hashChannel Samples.docs42);
         unlockQuery (hashChannel Samples.docs42)]
      /\ subscribers st2
         = <[Samples.docs42 := [Callback 1; Callback 2]]> (subscribers st1))
  /\ (issued st (snd bad)
      = [lockQuery (hashChannel MoreSamples.constructorName);
         unlockQuery (hashChannel MoreSamples.constructorName)]
      /\ subscribers (snd bad) = subscribers st
      /\ fst bad = Thrown (notAFunction (str "add"))).
Proof.
  intros st st1 st2 bad. split; [|split].
  - destruct (subscribe_by_kind_of_channel Samples.healthy Samples.docs42
                (Callback 1) st Samples.instance eq_refl eq_refl)
      as (Hi & _ & Hs).
    split; [exact Hi|exact (Hs eq_refl)].
  - destruct (subscribe_by_kind_of_channel Samples.healthy Samples.docs42
                (Callback 2) st1 Samples.instance eq_refl eq_refl)
      as (Hi & _ & Hs).
    split; [exact Hi|exact Hs].
  - destruct (subscribe_by_kind_of_channel Samples.healthy
                MoreSamples.constructorName (Callback 1) st Samples.instance
                eq_refl eq_refl)
      as (Hi & _ & Hs & Hr).
    split; [exact Hi|]. split; [exact Hs|exact Hr].
Defined.

(** C1, on the code.  When [subscribe] finds no subscriber set and the
    LISTEN command is rejected, the failure reaches the caller, but only the
    callback is taken out of the set just created: the channel keeps an
    entry holding an empty set.  A later [subscribe] on the channel then
    takes the path of an existing set: it sends no LISTEN. *)
Theorem subscribe_failed_listen_leaves_empty_set world ch sub st inst e :
  fst (getPGInstance world st) = Returned inst ->
  queryOutcome world (sent st) (lockQuery (hashChannel ch)) = None ->
  getProperty (subscribers st) ch = Undefined ->
  queryOutcome world (sent st ++ [lockQuery (hashChannel ch)]) (listenQuery ch)
    = Some e ->
  let r := fst (subscribe world ch sub st) in
  let st' := snd (subscribe world ch sub st) in
  (exists e', r = Thrown e')
  /\ (queryOutcome world (sent st ++ [lockQuery (hashChannel ch); listenQuery ch])
        (unlockQuery (hashChannel ch)) = None -> r = Thrown e)
  /\ subscribers st' !! ch = Some []
  /\ forall world' sub' inst',
       fst (getPGInstance world' st') = Returned inst' ->
       queryOutcome world' (sent st') (lockQuery (hashChannel ch)) = None ->
       let st'' := snd (subscribe world' ch sub' st') in
       issued st' st'' = [lockQuery (hashChannel ch); unlockQuery (hashChannel ch)]
       /\ List.filter isListen (issued st' st'') = []
       /\ subscribers st'' !! ch = Some [sub'].
Proof.
  intros Hget Hlock Hnone Hlisten r st'. subst r st'.
  destruct (subscribe world ch sub st) as [r st1] eqn:E. cbn [fst snd].
  destruct (subscribe_new_set world ch sub st inst r st1 Hget Hlock Hnone E)
    as [_ Hr].
  rewrite Hlisten in Hr. destruct Hr as (Hsubs & Hthrown & Hsame).
  split; [exact Hthrown|]. split; [exact Hsame|].
  assert (subscribers st1 !! ch = Some []) as Hentry
    by (rewrite Hsubs; apply lookup_insert_eq).
  split; [exact Hentry|].
  intros world' sub' inst' Hget' Hlock'.
  destruct (subscribe world' ch sub' st1) as [r2 st2] eqn:E2. cbn [snd].
  destruct (subscribe_existing_set world' ch sub' st1 inst' [] r2 st2
              Hget' Hlock' Hentry E2) as [Hi Hs].
  rewrite Hi, Hs, lookup_insert_eq. auto.
Qed.

Lemma subscribe_failed_listen_leaves_empty_set_witness :
  let st := Samples.configured in
  let r := fst (subscribe Samples.listenRejected Samples.docs42 (Callback 1) st) in
  let st' := snd (subscribe Samples.listenRejected Samples.docs42 (Callback 1) st) in
  r = Thrown Samples.connectionLost
  /\ subscribers st' !! Samples.docs42 = Some []
  /\ let st'' := snd (subscribe Samples.healthy Samples.docs42 (Callback 2) st') in
     issued st' st''
       = [lockQuery (hashChannel Samples.docs42); unlockQuery (hashChannel Samples.docs42)]
     /\ List.filter isListen (issued st' st'') = []
     /\ subscribers st'' !! Samples.docs42 = Some [Callback 2].
Proof.
  pose (inst := Samples.instance).
  destruct (subscribe_failed_listen_leaves_empty_set Samples.listenRejected
              Samples.docs42 (Callback 1) Samples.configured inst
              Samples.connectionLost eq_refl eq_refl eq_refl eq_refl)
    as (_ & Hr & Hentry & Hlater).
  split; [exact (Hr eq_refl)|]. split; [exact Hentry|].
  exact (Hlater Samples.healthy (Callback 2) inst eq_refl eq_refl).
Defined.

(** ** The unsubscribe closure *)

Section UnsubscribeFacts.

Variable world : World.

Ltac js_unfold :=
  unfold unsubscribe, bind, tryFinally, tryCatch, gets, modify, ret, throw, query.

(** The closure when the lock is refused: nothing else happens. *)
Lemma unsubscribe_lock_rejected u st e :
  queryOutcome world (sent st) (lockQuery (u_channelLockId u)) = Some e ->
  unsubscribe world u st = (Thrown e, withSent (lockQuery (u_channelLockId u)) st).
Proof. intros H. js_unfold. rewrite H. reflexivity. Qed.

(** The closure on a channel that has a subscriber set. *)
Lemma unsubscribe_entry u st subs r st' :
  queryOutcome world (sent st) (lockQuery (u_channelLockId u)) = None ->
  subscribers st !! u_channel u = Some subs ->
  unsubscribe world u st = (r, st') ->
  match JsSet.delete (u_onNotification u) subs with
  | [] =>
      issued st st'
        = [lockQuery (u_channelLockId u); unlistenQuery (u_channel u);
           unlockQuery (u_channelLockId u)]
      /\ match queryOutcome world (sent st ++ [lockQuery (u_channelLockId u)])
                 (unlistenQuery (u_channel u)) with
         | None => subscribers st' = delete (u_channel u) (subscribers st)
         | Some e => subscribers st' = <[u_channel u := []]> (subscribers st)
         end
  | remaining =>
      issued st st' = [lockQuery (u_channelLockId u); unlockQuery (u_channelLockId u)]
      /\ subscribers st' = <[u_channel u := remaining]> (subscribers st)
      /\ r = match queryOutcome world (sent st ++ [lockQuery (u_channelLockId u)])
                      (unlockQuery (u_channelLockId u)) with
              | None => Returned tt
              | Some e => Thrown e
              end
  end.
Proof.
  intros Hlock Hsubs. js_unfold. rewrite Hlock. cbn.
  rewrite (getProperty_own _ _ _ Hsubs). cbn.
  destruct (JsSet.delete (u_onNotification u) subs) as [|x rest] eqn:Hdel.
  - rewrite (proj2 (SetFacts.size_zero [])) by reflexivity. cbn.
    intros H.
    repeat (case_match; simplify_eq/=);
      (split; [apply issued_app; cbn; rewrite <- ?app_assoc; reflexivity|]);
      rewrite ?delete_insert_eq; reflexivity.
  - destruct (JsSet.size (x :: rest) =? 0) eqn:Hsz.
    { apply SetFacts.size_zero in Hsz. discriminate. }
    cbn. intros H.
    repeat (case_match; simplify_eq/=);
      (split; [apply issued_app; cbn; rewrite <- ?app_assoc; reflexivity|]);
      split; reflexivity.
Qed.

(** The closure on a channel that has no subscriber set. *)
Lemma unsubscribe_no_entry u st r st' :
  queryOutcome world (sent st) (lockQuery (u_channelLockId u)) = None ->
  getProperty (subscribers st) (u_channel u) = Undefined ->
  unsubscribe world u st = (r, st') ->
  issued st st' = [lockQuery (u_channelLockId u); unlockQuery (u_channelLockId u)]
  /\ subscribers st' = subscribers st
  /\ r = match queryOutcome world (sent st ++ [lockQuery (u_channelLockId u)])
                  (unlockQuery (u_channelLockId u)) with
          | None => Returned tt
          | Some e => Thrown e
          end.
Proof.
  intros Hlock Hsubs. js_unfold. rewrite Hlock. cbn. rewrite Hsubs. cbn.
  intros H.
  repeat (case_match; simplify_eq/=);
    (split; [apply issued_app; cbn; rewrite <- ?app_assoc; reflexivity|]);
    split; reflexivity.
Qed.

(** The closure on a channel named like an inherited property, without an
    entry of its own: the value read is not a [Set]. *)
Lemma unsubscribe_inherited_name u st r st' :
  queryOutcome world (sent st) (lockQuery (u_channelLockId u)) = None ->
  getProperty (subscribers st) (u_channel u) = Inherited ->
  unsubscribe world u st = (r, st') ->
  issued st st' = [lockQuery (u_channelLockId u); unlockQuery (u_channelLockId u)]
  /\ subscribers st' = subscribers st
  /\ r = match queryOutcome world (sent st ++ [lockQuery (u_channelLockId u)])
                  (unlockQuery (u_channelLockId u)) with
          | None => Thrown (notAFunction (str "delete"))
          | Some e => Thrown e
          end.
Proof.
  intros Hlock Hsubs. js_unfold. rewrite Hlock. cbn. rewrite Hsubs. cbn.
  intros H.
  repeat (case_match; simplify_eq/=);
    (split; [apply issued_app; cbn; rewrite <- ?app_assoc; reflexivity|]);
    split; reflexivity.
Qed.

(** The closure changes neither the configuration nor the instance. *)
Lemma unsubscribe_frame u st :
  let st' := snd (unsubscribe world u st) in
  dbOptions st' = dbOptions st /\ pgInstance st' = pgInstance st
  /\ calls st' = calls st.
Proof.
  js_unfold. repeat (case_match; simplify_eq/=); auto.
Qed.

(** What a call of [subscribe] that returns has done. *)
Lemma subscribe_returned ch sub st u st' :
  subscribe world ch sub st = (Returned u, st') ->
  exists inst,
    pgInstance st' = Some inst /\ is_Some (dbOptions st')
    /\ u = {| u_pubSubClient := pubSubClient inst;
              u_channelLockId := hashChannel ch;
              u_channel := ch;
              u_onNotification := sub |}
    /\ exists subs, subscribers st' !! ch = Some subs /\ sub ∈ subs.
Proof.
  unfold subscribe. unfold bind at 1.
  destruct (getPGInstance world st) as [[inst|e] st1] eqn:E; [|discriminate].
  destruct (getPGInstance_returned world st inst st1 E) as [Hi Ho].
  unfold bind, tryFinally, tryCatch, gets, modify, ret, throw, query.
  intros H. exists inst.
  repeat (case_match; simplify_eq/=);
    (split; [exact Hi|]); (split; [exact Ho|]); (split; [reflexivity|]);
    eexists; (split; [apply lookup_insert_eq|]).
  - apply SetFacts.elem_of_add. auto.
  - apply list_elem_of_singleton. reflexivity.
Qed.

End UnsubscribeFacts.

(** The handler on a channel without callbacks does nothing. *)
Lemma onNotificationEvent_nobody world n st :
  getProperty (subscribers st) (channel n) = Undefined
  \/ subscribers st !! channel n = Some [] ->
  onNotificationEvent world n st = (Returned tt, st).
Proof.
  unfold onNotificationEvent, bind, gets, ret. cbn.
  intros [H|H]; [|apply getProperty_own in H]; rewrite H; reflexivity.
Qed.

(** The handler on a channel named like an inherited property, without an
    entry of its own, throws before calling anything. *)
Lemma onNotificationEvent_inherited_name world n st :
  getProperty (subscribers st) (channel n) = Inherited ->
  onNotificationEvent world n st = (Thrown (notAFunction (str "forEach")), st).
Proof.
  unfold onNotificationEvent, bind, gets, throw. cbn. intros ->. reflexivity.
Qed.

(** C5.  Once the closure holds the advisory lock: when its callback is the
    only member of the channel's set it sends exactly one UNLISTEN, and when
    the UNLISTEN is accepted the channel's entry is deleted; whether or not
    it is accepted, a notification on the channel then reaches no callback,
    the handler returning without a call (for a channel that is not named
    like an inherited property; for one that is, it throws without a
    call).  When another callback is in the set, no UNLISTEN is sent and the
    entry stays, without this callback. *)
Theorem last_unsubscribe_unlistens world u st :
  queryOutcome world (sent st) (lockQuery (u_channelLockId u)) = None ->
  let st' := snd (unsubscribe world u st) in
  (subscribers st !! u_channel u = Some [u_onNotification u] ->
   issued st st'
     = [lockQuery (u_channelLockId u); unlistenQuery (u_channel u);
        unlockQuery (u_channelLockId u)]
   /\ length (List.filter isUnlisten (issued st st')) = 1%nat
   /\ (queryOutcome world (sent st ++ [lockQuery (u_channelLockId u)])
         (unlistenQuery (u_channel u)) = None ->
       subscribers st' = delete (u_channel u) (subscribers st)
       /\ subscribers st' !! u_channel u = None)
   /\ forall world' arg,
       let n := {| channel := u_channel u; payload := arg |} in
       invoked st' (snd (onNotificationEvent world' n st')) = []
       /\ (inherited (u_channel u) = false ->
           onNotificationEvent world' n st' = (Returned tt, st')))
  /\ (forall subs other,
       subscribers st !! u_channel u = Some subs ->
       other ∈ subs -> other <> u_onNotification u ->
       issued st st' = [lockQuery (u_channelLockId u); unlockQuery (u_channelLockId u)]
       /\ List.filter isUnlisten (issued st st') = []
       /\ subscribers st' !! u_channel u = Some (JsSet.delete (u_onNotification u) subs)
       /\ other ∈ JsSet.delete (u_onNotification u) subs).
Proof.
  intros Hlock st'. subst st'.
  destruct (unsubscribe world u st) as [r st1] eqn:E. cbn [snd]. split.
  - intros Hsubs.
    pose proof (unsubscribe_entry world u st _ r st1 Hlock Hsubs E) as H.
    rewrite SetFacts.delete_only in H. destruct H as [Hi Hs].
    rewrite Hi. split; [reflexivity|]. split; [reflexivity|]. split.
    + intros Hu. rewrite Hu in Hs. rewrite Hs. split; [reflexivity|].
      apply lookup_delete_eq.
    + intros world' arg. cbv zeta.
      set (n := {| channel := u_channel u; payload := arg |}).
      assert (subscribers st1 !! u_channel u = Some []
              \/ subscribers st1 !! u_channel u = None) as Hafter.
      { destruct (queryOutcome world _ (unlistenQuery (u_channel u)));
          rewrite Hs; [left; apply lookup_insert_eq|right; apply lookup_delete_eq]. }
      assert (forall st0, invoked st0 st0 = []) as Hnone
        by (intros st0; unfold invoked; apply drop_all).
      destruct Hafter as [Hempty|Hgone].
      * rewrite (onNotificationEvent_nobody world' n st1) by (right; exact Hempty).
        auto.
      * destruct (inherited (u_channel u)) eqn:Hinh.
        -- rewrite (onNotificationEvent_inherited_name world' n st1)
             by (apply getProperty_Inherited; auto).
           split; [apply Hnone|discriminate].
        -- rewrite (onNotificationEvent_nobody world' n st1)
             by (left; apply getProperty_Undefined; auto).
           auto.
  - intros subs other Hsubs Hin Hne.
    pose proof (unsubscribe_entry world u st _ r st1 Hlock Hsubs E) as H.
    pose proof (SetFacts.delete_keeps_other _ _ _ Hin Hne) as Hrem.
    destruct (JsSet.delete (u_onNotification u) subs) as [|x rest] eqn:Hdel;
      [congruence|].
    destruct H as (Hi & Hs & _). rewrite Hi, Hs, lookup_insert_eq.
    split; [reflexivity|]. split; [reflexivity|]. split; [reflexivity|].
    rewrite <- Hdel. apply SetFacts.elem_of_delete. auto.
Qed.


Lemma last_unsubscribe_unlistens_witness :
  let u := Samples.closure (Callback 1) in
  let st := snd (subscribe Samples.healthy Samples.docs42 (Callback 1) Samples.configured) in
  let st' := snd (unsubscribe Samples.healthy u st) in
  let both := snd (subscribe Samples.healthy Samples.docs42 (Callback 2) st) in
  let both' := snd (unsubscribe Samples.healthy u both) in
  (issued st st'
     = [lockQuery (hashChannel Samples.docs42); unlistenQuery Samples.docs42;
        unlockQuery (hashChannel Samples.docs42)]
   /\ subscribers st' !! Samples.docs42 = None)
  /\ (issued both both'
      = [lockQuery (hashChannel Samples.docs42); unlockQuery (hashChannel Samples.docs42)]
      /\ subscribers both' !! Samples.docs42 = Some [Callback 2]).
Proof.
  intros u st st' both both'. split.
  - destruct (last_unsubscribe_unlistens Samples.healthy u st eq_refl) as [H _].
    destruct (H eq_refl) as (Hi & _ & Hs & _).
    split; [exact Hi|]. exact (proj2 (Hs eq_refl)).
  - destruct (last_unsubscribe_unlistens Samples.healthy u both eq_refl) as [_ H].
    assert (Callback 2 ∈ [Callback 1; Callback 2]) as Hin
      by (apply list_elem_of_In; right; left; reflexivity).
    assert (Callback 2 <> Callback 1) as Hne by discriminate.
    destruct (H [Callback 1; Callback 2] (Callback 2) eq_refl Hin Hne)
      as (Hi & _ & Hs & _).
    split; [exact Hi|]. exact Hs.
Defined.

(** C9, amended.  When the closure reads nothing at [subscribers[channel]],
    or reads a non-empty set that does not hold the callback, it leaves the
    registry as it is and sends no UNLISTEN, and it completes as its lock
    and unlock queries do: it throws only what one of them is rejected
    with. *)
Theorem unsubscribe_absent_is_noop world u st :
  getProperty (subscribers st) (u_channel u) = Undefined
  \/ (exists subs, subscribers st !! u_channel u = Some subs
                   /\ subs <> [] /\ u_onNotification u ∉ subs) ->
  let r := fst (unsubscribe world u st) in
  let st' := snd (unsubscribe world u st) in
  subscribers st' = subscribers st
  /\ List.filter isUnlisten (issued st st') = []
  /\ r = match queryOutcome world (sent st) (lockQuery (u_channelLockId u)) with
         | Some e => Thrown e
         | None =>
             match queryOutcome world (sent st ++ [lockQuery (u_channelLockId u)])
                     (unlockQuery (u_channelLockId u)) with
             | Some e => Thrown e
             | None => Returned tt
             end
         end.
Proof.
  intros Habsent r st'. subst r st'.
  destruct (queryOutcome world (sent st) (lockQuery (u_channelLockId u)))
    as [e|] eqn:Hlock.
  - rewrite (unsubscribe_lock_rejected world u st e Hlock). cbn [fst snd].
    split; [reflexivity|]. split; [|reflexivity].
    rewrite (issued_app st _ [lockQuery (u_channelLockId u)]); reflexivity.
  - destruct (unsubscribe world u st) as [r st1] eqn:E. cbn [fst snd].
    destruct Habsent as [Hnone | (subs & Hsubs & Hne & Hnotin)].
    + destruct (unsubscribe_no_entry world u st r st1 Hlock Hnone E)
        as (Hi & Hs & Hr).
      rewrite Hi. auto.
    + pose proof (unsubscribe_entry world u st subs r st1 Hlock Hsubs E) as H.
      rewrite (SetFacts.delete_absent _ _ Hnotin) in H.
      destruct subs as [|x rest]; [congruence|].
      destruct H as (Hi & Hs & Hr). rewrite Hi, Hs.
      split; [apply insert_id; exact Hsubs|]. auto.
Qed.

Lemma unsubscribe_absent_is_noop_witness :
  let u := Samples.closure (Callback 2) in
  let st := snd (subscribe Samples.healthy Samples.docs42 (Callback 1) Samples.configured) in
  subscribers (snd (unsubscribe Samples.healthy u st)) = subscribers st
  /\ List.filter isUnlisten (issued st (snd (unsubscribe Samples.healthy u st))) = []
  /\ fst (unsubscribe Samples.healthy u st) = Returned tt.
Proof.
  intros u st.
  assert (getProperty (subscribers st) (u_channel u) = Undefined
          \/ (exists subs, subscribers st !! u_channel u = Some subs
                           /\ subs <> [] /\ u_onNotification u ∉ subs)) as H.
  { right. exists [Callback 1]. split; [reflexivity|]. split; [discriminate|].
    intros Hin. apply list_elem_of_singleton in Hin. discriminate. }
  exact (unsubscribe_absent_is_noop Samples.healthy u st H).
Defined.

(** C9, counterexample.  The first UNLISTEN is rejected, which leaves the
    channel with an empty set.  Calling the closure again, its callback not
    being in that set, sends an UNLISTEN and deletes the entry. *)
Lemma unsubscribe_absent_on_empty_set_unlistens :
  let world := Samples.firstUnlistenRejected in
  let u := Samples.closure (Callback 1) in
  let st1 := snd (subscribe world Samples.docs42 (Callback 1) Samples.configured) in
  let st2 := snd (unsubscribe world u st1) in
  let st3 := snd (unsubscribe world u st2) in
  fst (subscribe world Samples.docs42 (Callback 1) Samples.configured) = Returned u
  /\ fst (unsubscribe world u st1) = Thrown Samples.connectionLost
  /\ subscribers st2 !! Samples.docs42 = Some []
  /\ (Callback 1 ∉ @nil callback)
  /\ fst (unsubscribe world u st2) = Returned tt
  /\ issued st2 st3
     = [lockQuery (hashChannel Samples.docs42); unlistenQuery Samples.docs42;
        unlockQuery (hashChannel Samples.docs42)]
  /\ List.filter isUnlisten (issued st2 st3) <> []
  /\ subscribers st3 !! Samples.docs42 = None
  /\ subscribers st3 <> subscribers st2.
Proof.
  intros world u st1 st2 st3.
  split; [vm_compute; reflexivity|].
  split; [vm_compute; reflexivity|].
  split; [vm_compute; reflexivity|].
  split; [apply not_elem_of_nil|].
  split; [vm_compute; reflexivity|].
  split; [vm_compute; reflexivity|].
  split; [vm_compute; discriminate|].
  split; [vm_compute; reflexivity|].
  intros H. apply (f_equal (fun m => m !! Samples.docs42)) in H.
  vm_compute in H. discriminate.
Qed.

(** ** The notification handler *)

Section DispatchFacts.

Variable world : World.
Variable arg : option jsstring.

Lemma forEach_call_spec subs st r st' :
  forEach subs (fun sub => call world sub arg) st = (r, st') ->
  subscribers st' = subscribers st /\ sent st' = sent st
  /\ exists done rest,
      subs = done ++ rest
      /\ calls st' = calls st ++ map (fun s => (s, arg)) done
      /\ (r = Returned tt -> rest = []).
Proof.
  revert st. induction subs as [|sub subs IH]; intros st.
  - cbn. unfold ret. intros H. simplify_eq. split; [done|]. split; [done|].
    exists [], []. cbn. rewrite app_nil_r. repeat split; auto.
  - cbn. unfold bind, call.
    destruct (callOutcome world (calls st) sub arg) as [e|] eqn:Hc.
    + intros H. simplify_eq. cbn. split; [done|]. split; [done|].
      exists [sub], subs. split; [done|]. split; [done|]. discriminate.
    + intros H. apply IH in H. cbn in H.
      destruct H as (Hs & Hq & done & rest & Hsplit & Hcalls & Hret).
      split; [done|]. split; [done|].
      exists (sub :: done), rest. split; [cbn; congruence|].
      split; [|done]. rewrite Hcalls, <- app_assoc. reflexivity.
Qed.

Lemma forEach_all_return subs st :
  (forall hist sub, sub ∈ subs -> callOutcome world hist sub arg = None) ->
  fst (forEach subs (fun sub => call world sub arg) st) = Returned tt.
Proof.
  revert st. induction subs as [|sub subs IH]; intros st Hall; [reflexivity|].
  cbn. unfold bind, call.
  rewrite (Hall (calls st) sub) by (left; reflexivity).
  apply IH. intros hist s Hs. apply Hall. right. exact Hs.
Qed.

Lemma forEach_first_raise before sub after e st :
  (forall hist s, s ∈ before -> callOutcome world hist s arg = None) ->
  callOutcome world (calls st ++ map (fun s => (s, arg)) before) sub arg = Some e ->
  let res := forEach (before ++ sub :: after) (fun sub => call world sub arg) st in
  fst res = Thrown e
  /\ calls (snd res) = calls st ++ map (fun s => (s, arg)) (before ++ [sub]).
Proof.
  revert st. induction before as [|b before IH]; intros st Hall Hraise.
  - cbn in *. unfold bind, call. rewrite app_nil_r in Hraise. rewrite Hraise.
    cbn. auto.
  - cbn. unfold bind, call.
    rewrite (Hall (calls st) b) by (left; reflexivity).
    specialize (IH (withCall (b, arg) st)). cbn in IH.
    rewrite <- app_assoc in IH. cbn in IH.
    destruct IH as [Hr Hc].
    + intros hist s Hs. apply Hall. right. exact Hs.
    + exact Hraise.
    + split; [exact Hr|]. etransitivity; [exact Hc|].
      rewrite <- app_assoc. reflexivity.
Qed.

End DispatchFacts.

(** The calls the handler makes on a channel with a subscriber set. *)
Lemma onNotificationEvent_entry world n st subs :
  subscribers st !! channel n = Some subs ->
  let r := fst (onNotificationEvent world n st) in
  let st' := snd (onNotificationEvent world n st) in
  (exists rest,
     map (fun sub => (sub, payload n)) subs = invoked st st' ++ rest)
  /\ (r = Returned tt ->
      invoked st st' = map (fun sub => (sub, payload n)) subs).
Proof.
  intros Hsubs r st'. subst r st'.
  unfold onNotificationEvent, bind, gets. cbn.
  rewrite (getProperty_own _ _ _ Hsubs).
  destruct (forEach subs (fun sub => call world sub (payload n)) st)
    as [r st1] eqn:E. cbn [fst snd].
  destruct (forEach_call_spec world (payload n) subs st r st1 E)
    as (_ & _ & done & rest & Hsplit & Hcalls & Hret).
  rewrite (invoked_app st st1 _ Hcalls). split.
  - exists (map (fun sub => (sub, payload n)) rest).
    rewrite Hsplit, map_app. reflexivity.
  - intros Hr. rewrite Hsplit, (Hret Hr), app_nil_r. reflexivity.
Qed.

(** C6, on the code.  The handler leaves the registry and the query log
    alone, and what it does depends on what it reads at
    [subscribers[channel]].  Nothing: it returns without calling anything.
    A set: the calls it makes are the members of the set in insertion
    order, each with the payload of the event, up to the first one that
    throws: if every callback returns, all are called and the handler
    returns; the first callback that throws ends the handler with the value
    it threw, and the callbacks after it are not called.  An inherited
    property, for an event on a channel named [constructor], [toString] and
    the like: the call of [forEach] throws a [TypeError] and nothing is
    called. *)
Theorem dispatcher_by_kind_of_channel world n st :
  let r := fst (onNotificationEvent world n st) in
  let st' := snd (onNotificationEvent world n st) in
  subscribers st' = subscribers st /\ sent st' = sent st
  /\ match getProperty (subscribers st) (channel n) with
     | Undefined => r = Returned tt /\ invoked st st' = []
     | OwnSet subs =>
         let deliver := map (fun sub => (sub, payload n)) in
         invoked st st' `prefix_of` deliver subs
         /\ (r = Returned tt -> invoked st st' = deliver subs)
         /\ ((forall hist sub, sub ∈ subs ->
                callOutcome world hist sub (payload n) = None) ->
             r = Returned tt)
         /\ (forall before sub after e,
               subs = before ++ sub :: after ->
               (forall hist s, s ∈ before ->
                  callOutcome world hist s (payload n) = None) ->
               callOutcome world (calls st ++ deliver before) sub (payload n)
                 = Some e ->
               r = Thrown e /\ invoked st st' = deliver (before ++ [sub]))
     | Inherited =>
         r = Thrown (notAFunction (str "forEach")) /\ invoked st st' = []
     end.
Proof.
  intros r st'. subst r st'.
  unfold onNotificationEvent, bind, gets. cbn.
  destruct (getProperty (subscribers st) (channel n)) as [subs| |] eqn:Hsubs.
  - destruct (forEach subs (fun sub => call world sub (payload n)) st)
      as [r st1] eqn:E. cbn [fst snd].
    destruct (forEach_call_spec world (payload n) subs st r st1 E)
      as (Hs & Hq & done & rest & Hsplit & Hcalls & Hret).
    split; [exact Hs|]. split; [exact Hq|].
    rewrite (invoked_app st st1 _ Hcalls).
    split; [|split; [|split]].
    + exists (map (fun sub => (sub, payload n)) rest).
      rewrite Hsplit, map_app. reflexivity.
    + intros Hr. rewrite Hsplit, (Hret Hr), app_nil_r. reflexivity.
    + intros Hall.
      pose proof (forEach_all_return world (payload n) subs st Hall) as H.
      rewrite E in H. exact H.
    + intros before sub after e Hsub Hbefore Hraise.
      pose proof (forEach_first_raise world (payload n) before sub after e st
                    Hbefore Hraise) as H.
      cbv zeta in H. rewrite <- Hsub, E in H. cbn in H. destruct H as [Hr Hc].
      split; [exact Hr|].
      rewrite Hcalls in Hc. apply app_inv_head in Hc. exact Hc.
  - cbn. unfold throw. cbn. split; [done|]. split; [done|]. split; [done|].
    unfold invoked. apply drop_all.
  - cbn. unfold ret. cbn. split; [done|]. split; [done|]. split; [done|].
    unfold invoked. apply drop_all.
Qed.

Lemma dispatcher_by_kind_of_channel_witness :
  let world := Samples.secondCallbackThrows in
  let st0 := Samples.configured in
  let st1 := snd (subscribe world Samples.docs42 (Callback 1) st0) in
  let st2 := snd (subscribe world Samples.docs42 (Callback 2) st1) in
  let st3 := snd (subscribe world Samples.docs42 (Callback 3) st2) in
  let n := {| channel := Samples.docs42; payload := Some (str "updated") |} in
  let bad := {| channel := MoreSamples.constructorName;
                payload := Some (str "updated") |} in
  (fst (onNotificationEvent world n st3) = Thrown (Error (str "boom"))
   /\ invoked st3 (snd (onNotificationEvent world n st3))
      = [(Callback 1, Some (str "updated")); (Callback 2, Some (str "updated"))])
  /\ (fst (onNotificationEvent world bad st3)
        = Thrown (notAFunction (str "forEach"))
      /\ invoked st3 (snd (onNotificationEvent world bad st3)) = []).
Proof.
  intros world st0 st1 st2 st3 n bad. split.
  - pose proof (dispatcher_by_kind_of_channel world n st3) as H. cbv zeta in H.
    destruct H as (_ & _ & H).
    change (getProperty (subscribers st3) (channel n))
      with (OwnSet [Callback 1; Callback 2; Callback 3]) in H.
    destruct H as (_ & _ & _ & H).
    apply (H [Callback 1] (Callback 2) [Callback 3] (Error (str "boom")) eq_refl).
    + intros hist s Hs. apply list_elem_of_singleton in Hs. subst s. reflexivity.
    + reflexivity.
  - pose proof (dispatcher_by_kind_of_channel world bad st3) as H. cbv zeta in H.
    destruct H as (_ & _ & H).
    change (getProperty (subscribers st3) (channel bad)) with Inherited in H.
    exact H.
Defined.

(** ** The registry along a run *)

Section RegistryFacts.

Variable world : World.

Lemma noDuplicates_insert st st' ch subs :
  noDuplicates st -> NoDup subs ->
  subscribers st' = <[ch := subs]> (subscribers st) -> noDuplicates st'.
Proof.
  intros Hinv Hnd Heq ch' subs'. rewrite Heq, lookup_insert.
  case_decide; [intros; simplify_eq; done | apply Hinv].
Qed.

Lemma noDuplicates_delete st st' ch :
  noDuplicates st ->
  subscribers st' = delete ch (subscribers st) -> noDuplicates st'.
Proof.
  intros Hinv Heq ch' subs'. rewrite Heq, lookup_delete.
  case_decide; [done | apply Hinv].
Qed.

Lemma noDuplicates_same st st' :
  noDuplicates st -> subscribers st' = subscribers st -> noDuplicates st'.
Proof. intros Hinv Heq ch subs. rewrite Heq. apply Hinv. Qed.

Lemma subscribe_registry ch sub st :
  let m' := subscribers (snd (subscribe world ch sub st)) in
  m' = subscribers st
  \/ m' = <[ch := [sub]]> (subscribers st)
  \/ m' = <[ch := []]> (subscribers st)
  \/ exists subs, subscribers st !! ch = Some subs
                  /\ m' = <[ch := JsSet.add sub subs]> (subscribers st).
Proof.
  cbv zeta. destruct (subscribe world ch sub st) as [r st'] eqn:E. cbn [snd].
  revert E. unfold subscribe. unfold bind at 1.
  pose proof (getPGInstance_frame world st) as F. cbv zeta in F.
  destruct (getPGInstance world st) as [[inst|e] st1]; cbn [snd] in *;
    [|intros E; simplify_eq; left; tauto].
  destruct F as (Hs & _). rewrite <- Hs.
  unfold bind, tryFinally, tryCatch, gets, modify, ret, throw, query.
  intros E.
  repeat (case_match; simplify_eq/=);
    repeat match goal with
           | H : getProperty (<[?k := ?v]> _) ?k = _ |- _ =>
               rewrite (getProperty_own _ k v) in H by apply lookup_insert_eq;
               simplify_eq
           | H : getProperty _ _ = OwnSet _ |- _ => apply getProperty_OwnSet in H
           end;
    rewrite ?SetFacts.delete_only, ?insert_insert_eq; eauto 6.
Qed.

Lemma unsubscribe_registry u st :
  let m' := subscribers (snd (unsubscribe world u st)) in
  m' = subscribers st
  \/ m' = delete (u_channel u) (subscribers st)
  \/ exists subs, subscribers st !! u_channel u = Some subs
       /\ m' = <[u_channel u := JsSet.delete (u_onNotification u) subs]> (subscribers st).
Proof.
  cbv zeta. destruct (unsubscribe world u st) as [r st'] eqn:E. cbn [snd].
  revert E.
  unfold unsubscribe, bind, tryFinally, tryCatch, gets, modify, ret, throw, query.
  intros E.
  repeat (case_match; simplify_eq/=);
    repeat match goal with
           | H : getProperty _ _ = OwnSet _ |- _ => apply getProperty_OwnSet in H
           end;
    rewrite ?delete_insert_eq; eauto 6.
Qed.

Lemma onNotificationEvent_registry n st :
  subscribers (snd (onNotificationEvent world n st)) = subscribers st.
Proof.
  unfold onNotificationEvent, bind, gets. cbn.
  destruct (getProperty (subscribers st) (channel n)) as [subs| |];
    [|reflexivity|reflexivity].
  destruct (forEach subs _ st) as [r st1] eqn:E.
  apply (forEach_call_spec world (payload n)) in E. cbn. tauto.
Qed.

Lemma publish_registry ch msg st :
  subscribers (snd (publish world ch msg st)) = subscribers st.
Proof.
  unfold publish. unfold bind at 1.
  pose proof (getPGInstance_frame world st) as F. cbv zeta in F.
  destruct (getPGInstance world st) as [[inst|e] st1]; cbn [snd] in *;
    [|tauto].
  unfold query. case_match; cbn; tauto.
Qed.

Lemma reachable_noDuplicates st : Reachable world st -> noDuplicates st.
Proof.
  induction 1 as [|o st _ IH|st _ IH|ch sub st _ IH|u st _ IH|ch msg st _ IH
                 |n st _ IH].
  - intros ch subs H. cbn in H. rewrite lookup_empty in H. discriminate.
  - exact IH.
  - eapply noDuplicates_same; [exact IH|]. apply (getPGInstance_frame world st).
  - destruct (subscribe_registry ch sub st) as [H|[H|[H|(subs & Hs & H)]]].
    + eapply noDuplicates_same; eauto.
    + eapply noDuplicates_insert; [exact IH| |exact H]. apply NoDup_singleton.
    + eapply noDuplicates_insert; [exact IH| |exact H]. apply NoDup_nil_2.
    + eapply noDuplicates_insert; [exact IH| |exact H].
      apply SetFacts.NoDup_add. eapply IH. exact Hs.
  - destruct (unsubscribe_registry u st) as [H|[H|(subs & Hs & H)]].
    + eapply noDuplicates_same; eauto.
    + eapply noDuplicates_delete; eauto.
    + eapply noDuplicates_insert; [exact IH| |exact H].
      apply SetFacts.NoDup_delete. eapply IH. exact Hs.
  - eapply noDuplicates_same; [exact IH|]. apply publish_registry.
  - eapply noDuplicates_same; [exact IH|]. apply onNotificationEvent_registry.
Qed.

End RegistryFacts.

(** ** Delivery counts *)

Lemma deliveries_map sub arg (l : list callback) :
  deliveries sub (map (fun s => (s, arg)) l) = count_occ callback_eq_dec l sub.
Proof.
  unfold deliveries. induction l as [|x l IH]; [reflexivity|].
  cbn. destruct (callback_eq_dec x sub) as [->|Hne].
  - rewrite bool_decide_eq_true_2 by reflexivity. cbn. rewrite IH. reflexivity.
  - rewrite bool_decide_eq_false_2 by exact Hne. exact IH.
Qed.

Lemma count_occ_member_once sub (l : list callback) :
  NoDup l -> sub ∈ l -> count_occ callback_eq_dec l sub = 1%nat.
Proof.
  intros Hnd Hin. apply NoDup_ListNoDup in Hnd. apply list_elem_of_In in Hin.
  pose proof (proj1 (List.NoDup_count_occ callback_eq_dec l) Hnd sub) as Hle.
  pose proof (proj1 (count_occ_In callback_eq_dec l sub) Hin) as Hpos.
  lia.
Qed.

(** C7.  From any reachable state, after two calls of [subscribe] with the
    same callback on the same channel have returned, the channel's set holds
    the callback once; the handler then calls it at most once for a
    notification on the channel, and exactly once when the handler
    returns. *)
Theorem same_callback_delivered_once world ch sub st u1 st1 u2 st2 :
  Reachable world st ->
  subscribe world ch sub st = (Returned u1, st1) ->
  subscribe world ch sub st1 = (Returned u2, st2) ->
  (exists subs, subscribers st2 !! ch = Some subs
                /\ count_occ callback_eq_dec subs sub = 1%nat)
  /\ forall world' arg,
       let n := {| channel := ch; payload := arg |} in
       let r := fst (onNotificationEvent world' n st2) in
       let st3 := snd (onNotificationEvent world' n st2) in
       (deliveries sub (invoked st2 st3) <= 1)%nat
       /\ (r = Returned tt -> deliveries sub (invoked st2 st3) = 1%nat).
Proof.
  intros Hreach E1 E2.
  assert (Reachable world st2) as Hreach2.
  { pose proof (reach_subscribe world ch sub st Hreach) as R1.
    rewrite E1 in R1. cbn in R1.
    pose proof (reach_subscribe world ch sub st1 R1) as R2.
    rewrite E2 in R2. exact R2. }
  destruct (subscribe_returned world ch sub st1 u2 st2 E2)
    as (inst & _ & _ & _ & subs & Hsubs & Hin).
  pose proof (reachable_noDuplicates world st2 Hreach2 ch subs Hsubs) as Hnd.
  pose proof (count_occ_member_once sub subs Hnd Hin) as Hone.
  split; [exists subs; auto|].
  intros world' arg n r st3. subst r st3.
  pose proof (onNotificationEvent_entry world' n st2 subs Hsubs) as H.
  cbv zeta in H. subst n. cbn [channel payload] in *.
  destruct H as ([rest Hpre] & Hall).
  assert (deliveries sub (map (fun s => (s, arg)) subs) = 1%nat) as Htotal
    by (rewrite deliveries_map; exact Hone).
  split.
  - rewrite Hpre in Htotal. unfold deliveries in *.
    rewrite List.filter_app, length_app in Htotal. lia.
  - intros Hr. rewrite (Hall Hr). exact Htotal.
Qed.

Lemma same_callback_delivered_once_witness :
  let world := Samples.healthy in
  let st1 := snd (subscribe world Samples.docs42 (Callback 1) Samples.configured) in
  let st2 := snd (subscribe world Samples.docs42 (Callback 1) st1) in
  let n := {| channel := Samples.docs42; payload := Some (str "updated") |} in
  subscribers st2 !! Samples.docs42 = Some [Callback 1]
  /\ invoked st2 (snd (onNotificationEvent world n st2))
     = [(Callback 1, Some (str "updated"))]
  /\ deliveries (Callback 1) (invoked st2 (snd (onNotificationEvent world n st2)))
     = 1%nat.
Proof.
  intros world st1 st2 n.
  split; [reflexivity|]. split; [reflexivity|].
  pose (u := Samples.closure (Callback 1)).
  destruct (same_callback_delivered_once world Samples.docs42 (Callback 1)
              Samples.configured u st1 u st2
              (reach_init world Samples.preferOptions initialState
                 (reach_initial world))
              eq_refl eq_refl) as [_ H].
  exact (proj2 (H world (Some (str "updated"))) eq_refl).
Defined.

(** ** A closure outlives its subscription *)

Lemma unsubscribe_removes_callback world u st :
  queryOutcome world (sent st) (lockQuery (u_channelLockId u)) = None ->
  forall subs,
    subscribers (snd (unsubscribe world u st)) !! u_channel u = Some subs ->
    u_onNotification u ∉ subs.
Proof.
  intros Hlock subs.
  destruct (unsubscribe world u st) as [r st'] eqn:E. cbn [snd].
  destruct (subscribers st !! u_channel u) as [old|] eqn:Hold.
  - pose proof (unsubscribe_entry world u st old r st' Hlock Hold E) as H.
    destruct (JsSet.delete (u_onNotification u) old) as [|x rest] eqn:Hdel.
    + destruct H as [_ Hs].
      destruct (queryOutcome world _ (unlistenQuery (u_channel u)));
        rewrite Hs.
      * rewrite lookup_insert_eq. intros; simplify_eq. apply not_elem_of_nil.
      * rewrite lookup_delete_eq. discriminate.
    + destruct H as (_ & Hs & _). rewrite Hs, lookup_insert_eq.
      intros; simplify_eq. rewrite <- Hdel.
      intros Hin. apply SetFacts.elem_of_delete in Hin. tauto.
  - destruct (getProperty_no_entry (subscribers st) (u_channel u) Hold)
      as [Hinh|Hund].
    + destruct (unsubscribe_inherited_name world u st r st' Hlock Hinh E)
        as (_ & Hs & _).
      rewrite Hs, Hold. discriminate.
    + destruct (unsubscribe_no_entry world u st r st' Hlock Hund E)
        as (_ & Hs & _).
      rewrite Hs, Hold. discriminate.
Qed.

(** C10.  A closure is determined by the channel and the callback (and the
    instance): the closures returned by a first [subscribe] and by a later
    [subscribe] of the same callback on the same channel are equal.  After
    the first closure has been called and the callback registered again,
    calling the first closure once more takes the callback out of the
    channel's set; in any state, once it holds the lock, the closure leaves
    no set of its channel holding its callback. *)
Theorem stale_handle_removes_reregistration world ch sub st u1 st1 st2 u2 st3 :
  subscribe world ch sub st = (Returned u1, st1) ->
  unsubscribe world u1 st1 = (Returned tt, st2) ->
  subscribe world ch sub st2 = (Returned u2, st3) ->
  queryOutcome world (sent st3) (lockQuery (u_channelLockId u1)) = None ->
  let st4 := snd (unsubscribe world u1 st3) in
  u1 = u2
  /\ (exists subs, subscribers st3 !! ch = Some subs /\ sub ∈ subs)
  /\ (forall subs, subscribers st4 !! ch = Some subs -> sub ∉ subs)
  /\ (forall st',
        queryOutcome world (sent st') (lockQuery (u_channelLockId u1)) = None ->
        forall subs,
          subscribers (snd (unsubscribe world u1 st')) !! ch = Some subs ->
          sub ∉ subs).
Proof.
  intros E1 E2 E3 Hlock st4. subst st4.
  destruct (subscribe_returned world ch sub st u1 st1 E1)
    as (inst1 & Hi1 & [o Ho1] & Hu1 & _).
  destruct (subscribe_returned world ch sub st2 u2 st3 E3)
    as (inst3 & Hi3 & _ & Hu3 & Hmember).
  pose proof (unsubscribe_frame world u1 st1) as F. cbv zeta in F.
  rewrite E2 in F. cbn [snd] in F. destruct F as (Fo & Fi & _).
  assert (inst3 = inst1) as ->.
  { pose proof (getPGInstance_memo world st2 o inst1) as M.
    rewrite Fo, Fi in M. specialize (M Ho1 Hi1).
    revert E3. unfold subscribe. unfold bind at 1. rewrite M. intros E3.
    pose proof (f_equal pgInstance (f_equal snd E3)) as P. cbn [snd] in P.
    rewrite Hi3 in P. clear -P Fi Hi1 Fo.
    revert P. unfold bind, tryFinally, tryCatch, gets, modify, ret, throw, query.
    repeat (case_match; simplify_eq/=); intros; simplify_eq/=; congruence. }
  split; [congruence|]. split; [exact Hmember|].
  assert (forall st',
            queryOutcome world (sent st') (lockQuery (u_channelLockId u1)) = None ->
            forall subs,
              subscribers (snd (unsubscribe world u1 st')) !! ch = Some subs ->
              sub ∉ subs) as Hany.
  { intros st' Hlock' subs Hsubs.
    pose proof (unsubscribe_removes_callback world u1 st' Hlock' subs) as H.
    rewrite Hu1 in H. cbn [u_channel u_onNotification] in H.
    rewrite Hu1 in Hsubs. apply H. exact Hsubs. }
  split; [|exact Hany]. exact (Hany st3 Hlock).
Qed.

Lemma stale_handle_removes_reregistration_witness :
  let world := Samples.healthy in
  let u := Samples.closure (Callback 1) in
  let st1 := snd (subscribe world Samples.docs42 (Callback 1) Samples.configured) in
  let st2 := snd (unsubscribe world u st1) in
  let st3 := snd (subscribe world Samples.docs42 (Callback 1) st2) in
  let st4 := snd (unsubscribe world u st3) in
  fst (subscribe world Samples.docs42 (Callback 1) Samples.configured) = Returned u
  /\ fst (subscribe world Samples.docs42 (Callback 1) st2) = Returned u
  /\ subscribers st3 !! Samples.docs42 = Some [Callback 1]
  /\ (forall subs, subscribers st4 !! Samples.docs42 = Some subs -> Callback 1 ∉ subs).
Proof.
  intros world u st1 st2 st3 st4.
  split; [reflexivity|]. split; [reflexivity|]. split; [reflexivity|].
  exact (proj1 (proj2 (proj2 (stale_handle_removes_reregistration world
                         Samples.docs42 (Callback 1) Samples.configured
                         u st1 st2 u st3 eq_refl eq_refl eq_refl eq_refl)))).
Defined.

(** ** Connecting *)



(** * Further properties *)

(** ** Before [init], and when connecting fails *)

(** X1.  Before [init] every entry point of the pub/sub layer throws the
    same error and leaves the module as it is: no connection attempt is
    made and no query is sent. *)
Theorem entry_points_before_init world ch sub msg st :
  dbOptions st = None ->
  getPGInstance world st = (Thrown notInitialized, st)
  /\ subscribe world ch sub st = (Thrown notInitialized, st)
  /\ publish world ch msg st = (Thrown notInitialized, st)
  /\ getPGPool world st = (Thrown notInitialized, st).
Proof.
  intros H.
  assert (getPGInstance world st = (Thrown notInitialized, st)) as G.
  { unfold getPGInstance, bind, gets, throw. cbn. rewrite H. reflexivity. }
  unfold subscribe, publish, getPGPool.
  repeat split; try exact G; unfold bind at 1; rewrite G; reflexivity.
Qed.

Lemma entry_points_before_init_witness :
  subscribe Samples.healthy Samples.docs42 (Callback 1) initialState
  = (Thrown notInitialized, initialState).
Proof.
  exact (proj1 (proj2 (entry_points_before_init Samples.healthy Samples.docs42
                         (Callback 1) (str "updated") initialState eq_refl))).
Defined.

(** X2.  When [getPGInstance] throws, nothing is stored: the instance
    variable and the armed handlers are as before, so the next call connects
    again; and [subscribe], [publish] and [getPGPool] throw the same value
    without reading the registry or sending a query. *)
Theorem connection_failure_is_not_cached world ch sub msg st e st' :
  getPGInstance world st = (Thrown e, st') ->
  pgInstance st' = pgInstance st /\ handlers st' = handlers st
  /\ subscribers st' = subscribers st /\ sent st' = sent st
  /\ subscribe world ch sub st = (Thrown e, st')
  /\ publish world ch msg st = (Thrown e, st')
  /\ getPGPool world st = (Thrown e, st').
Proof.
  intros G.
  assert (pgInstance st' = pgInstance st /\ handlers st' = handlers st
          /\ subscribers st' = subscribers st /\ sent st' = sent st) as F.
  { revert G.
    unfold getPGInstance, bind, tryCatch, gets, modify, ret, throw, connect.
    intros G. repeat (case_match; simplify_eq/=); auto. }
  destruct F as (F1 & F2 & F3 & F4).
  unfold subscribe, publish, getPGPool.
  repeat split; try assumption; unfold bind at 1; rewrite G; reflexivity.
Qed.

Lemma connection_failure_is_not_cached_witness :
  let st' := snd (getPGInstance MoreSamples.unreachable Samples.configured) in
  pgInstance st' = None /\ handlers st' = []
  /\ subscribe MoreSamples.unreachable Samples.docs42 (Callback 1) Samples.configured
     = (Thrown Samples.connectionLost, st').
Proof.
  intros st'.
  destruct (connection_failure_is_not_cached MoreSamples.unreachable
              Samples.docs42 (Callback 1) (str "updated") Samples.configured
              Samples.connectionLost st' eq_refl)
    as (H1 & H2 & _ & _ & H3 & _).
  split; [exact H1|]. split; [exact H2|]. exact H3.
Defined.

(** ** The instance *)

(** X3.  Once [getPGInstance] has returned an instance, every later call
    returns that instance and changes nothing, whatever the server does and
    also after [init] has been called again with other options: no second
    connection is opened and no second handler is armed. *)
Theorem instance_is_memoized world st inst st' :
  getPGInstance world st = (Returned inst, st') ->
  forall world',
    getPGInstance world' st' = (Returned inst, st')
    /\ forall o,
        getPGInstance world' (snd (init o st')) = (Returned inst, snd (init o st')).
Proof.
  intros G world'.
  destruct (getPGInstance_returned world st inst st' G) as [Hi [o' Ho]].
  split.
  - exact (getPGInstance_memo world' st' o' inst Ho Hi).
  - intros o. apply (getPGInstance_memo world' _ o inst); [reflexivity|exact Hi].
Qed.

Lemma instance_is_memoized_witness :
  getPGInstance MoreSamples.unreachable
    (snd (init MoreSamples.otherOptions MoreSamples.connected))
  = (Returned Samples.instance, snd (init MoreSamples.otherOptions MoreSamples.connected)).
Proof.
  exact (proj2 (instance_is_memoized Samples.healthy Samples.configured
                  Samples.instance MoreSamples.connected eq_refl
                  MoreSamples.unreachable) MoreSamples.otherOptions).
Defined.

(** X4.  A call of [getPGInstance] arms a notification handler only when it
    builds the instance: then exactly one, on the dedicated client of the
    instance it returns and stores, and the pool of that instance has the
    settings of the dedicated client.  A call that finds a stored instance
    arms none, and neither does a call that throws. *)
Theorem getPGInstance_arms_once world st :
  let r := fst (getPGInstance world st) in
  let st' := snd (getPGInstance world st) in
  match r with
  | Returned inst =>
      pgInstance st' = Some inst
      /\ match pgInstance st with
         | Some found => inst = found /\ handlers st' = handlers st
         | None =>
             handlers st' = handlers st ++ [pubSubClient inst]
             /\ pool inst = pubSubClient inst
             /\ last (connects st') = Some (pubSubClient inst)
         end
  | Thrown _ => handlers st' = handlers st /\ pgInstance st' = pgInstance st
  end.
Proof.
  intros r st'. subst r st'.
  destruct (getPGInstance world st) as [r st'] eqn:E. cbn [fst snd].
  revert E.
  unfold getPGInstance, bind, tryCatch, gets, modify, ret, throw, connect.
  intros E.
  repeat (case_match; simplify_eq/=); rewrite ?last_snoc; auto.
Qed.

(** X5.  Outside the ['prefer'] mode there is no fallback: the dedicated
    client makes one connection attempt, with the configured [ssl] setting,
    and a rejection of it is thrown as it is, whatever its message; no
    instance is stored then. *)
Theorem strict_modes_do_not_downgrade world opts st :
  dbOptions st = Some opts -> pgInstance st = None -> ssl opts <> SslPrefer ->
  let client :=
    {| cfg_connectionString := connectionString opts;
       cfg_ssl := sslOption (ssl opts) |} in
  let r := fst (getPGInstance world st) in
  let st' := snd (getPGInstance world st) in
  connects st' = connects st ++ [client]
  /\ match connectOutcome world (connects st) client with
     | None =>
         r = Returned {| pubSubClient := client; pool := client |}
         /\ pgInstance st' = Some {| pubSubClient := client; pool := client |}
     | Some e => r = Thrown e /\ pgInstance st' = None
     end.
Proof.
  intros Ho Hi Hssl client r st'. subst r st'.
  destruct (getPGInstance world st) as [r st'] eqn:E. cbn [fst snd].
  revert E.
  unfold getPGInstance, bind, tryCatch, gets, modify, ret, throw, connect.
  cbn -[noSslSupport]. rewrite Ho, Hi. cbn -[noSslSupport]. fold client.
  assert (isPrefer (ssl opts) = false) as ->
    by (destruct (ssl opts); [contradiction|reflexivity|reflexivity]).
  destruct (connectOutcome world (connects st) client) as [e|];
    cbn -[noSslSupport]; intros E; simplify_eq/=; auto.
Qed.

Lemma strict_modes_do_not_downgrade_witness :
  let client :=
    {| cfg_connectionString := connectionString MoreSamples.strictOptions;
       cfg_ssl := ssl_object {| rejectUnauthorized := Some true; ca := None |} |} in
  connects (snd (getPGInstance Samples.noSslServer MoreSamples.strictConfigured))
    = [client]
  /\ fst (getPGInstance Samples.noSslServer MoreSamples.strictConfigured)
     = Thrown (Error noSslSupport).
Proof.
  intros client.
  assert (ssl MoreSamples.strictOptions <> SslPrefer) as Hne by discriminate.
  destruct (strict_modes_do_not_downgrade Samples.noSslServer
              MoreSamples.strictOptions MoreSamples.strictConfigured
              eq_refl eq_refl Hne) as [Hc Hr].
  split; [exact Hc|]. exact (proj1 Hr).
Defined.

(** ** The advisory lock *)

(** X6.  When [subscribe] has acquired the advisory lock it always sends the
    matching unlock, with the same token, as its last query, whether the
    LISTEN was accepted or rejected; nothing in between takes or releases a
    lock.  The same holds for the closure it returns. *)
Theorem lock_is_always_released world ch sub st inst u :
  fst (getPGInstance world st) = Returned inst ->
  queryOutcome world (sent st) (lockQuery (hashChannel ch)) = None ->
  queryOutcome world (sent st) (lockQuery (u_channelLockId u)) = None ->
  let between :=
    Forall (fun q => isAdvisoryLock q = false /\ isAdvisoryUnlock q = false) in
  (exists middle,
     issued st (snd (subscribe world ch sub st))
     = lockQuery (hashChannel ch) :: middle ++ [unlockQuery (hashChannel ch)]
     /\ between middle)
  /\ (exists middle,
       issued st (snd (unsubscribe world u st))
       = lockQuery (u_channelLockId u) :: middle ++ [unlockQuery (u_channelLockId u)]
       /\ between middle).
Proof.
  intros Hget Hlock Hlocku between. subst between. split.
  - destruct (subscribe world ch sub st) as [r st'] eqn:E. cbn [snd].
    destruct (getProperty (subscribers st) ch) as [subs| |] eqn:Hsubs.
    + apply getProperty_OwnSet in Hsubs.
      destruct (subscribe_existing_set world ch sub st inst subs r st'
                  Hget Hlock Hsubs E) as [Hi _].
      exists []. rewrite Hi. split; [reflexivity|constructor].
    + destruct (subscribe_inherited_name world ch sub st inst r st'
                  Hget Hlock Hsubs E) as [Hi _].
      exists []. rewrite Hi. split; [reflexivity|constructor].
    + destruct (subscribe_new_set world ch sub st inst r st' Hget Hlock Hsubs E)
        as [Hi _].
      exists [listenQuery ch]. rewrite Hi. split; [reflexivity|].
      constructor; [split; reflexivity|constructor].
  - destruct (unsubscribe world u st) as [r st'] eqn:E. cbn [snd].
    destruct (getProperty (subscribers st) (u_channel u)) as [subs| |] eqn:Hsubs.
    + apply getProperty_OwnSet in Hsubs.
      pose proof (unsubscribe_entry world u st subs r st' Hlocku Hsubs E) as H.
      destruct (JsSet.delete (u_onNotification u) subs) as [|x rest].
      * destruct H as [Hi _]. exists [unlistenQuery (u_channel u)].
        rewrite Hi. split; [reflexivity|].
        constructor; [split; reflexivity|constructor].
      * destruct H as [Hi _]. exists []. rewrite Hi.
        split; [reflexivity|constructor].
    + destruct (unsubscribe_inherited_name world u st r st' Hlocku Hsubs E)
        as [Hi _].
      exists []. rewrite Hi. split; [reflexivity|constructor].
    + destruct (unsubscribe_no_entry world u st r st' Hlocku Hsubs E) as [Hi _].
      exists []. rewrite Hi. split; [reflexivity|constructor].
Qed.

Lemma lock_is_always_released_witness :
  let between :=
    Forall (fun q => isAdvisoryLock q = false /\ isAdvisoryUnlock q = false) in
  exists middle,
    issued Samples.configured
      (snd (subscribe Samples.listenRejected Samples.docs42 (Callback 1)
              Samples.configured))
    = lockQuery (hashChannel Samples.docs42)
        :: middle ++ [unlockQuery (hashChannel Samples.docs42)]
    /\ between middle.
Proof.
  exact (proj1 (lock_is_always_released Samples.listenRejected Samples.docs42
                  (Callback 1) Samples.configured Samples.instance
                  (Samples.closure (Callback 1)) eq_refl eq_refl eq_refl)).
Defined.

(** X7.  When the advisory lock is refused, [subscribe] and the closure
    throw the refusal after that single query: the registry is not read or
    changed, no LISTEN or UNLISTEN is sent, and no unlock either. *)
Theorem lock_refused_changes_nothing world ch sub st inst u e e' :
  fst (getPGInstance world st) = Returned inst ->
  queryOutcome world (sent st) (lockQuery (hashChannel ch)) = Some e ->
  queryOutcome world (sent st) (lockQuery (u_channelLockId u)) = Some e' ->
  (fst (subscribe world ch sub st) = Thrown e
   /\ issued st (snd (subscribe world ch sub st)) = [lockQuery (hashChannel ch)]
   /\ subscribers (snd (subscribe world ch sub st)) = subscribers st)
  /\ (fst (unsubscribe world u st) = Thrown e'
      /\ issued st (snd (unsubscribe world u st)) = [lockQuery (u_channelLockId u)]
      /\ subscribers (snd (unsubscribe world u st)) = subscribers st).
Proof.
  intros Hget Hlock Hlocku. split.
  - destruct (subscribe_enter world st inst Hget) as (st1 & G & Hs & Hq).
    assert (subscribe world ch sub st
            = (Thrown e, withSent (lockQuery (hashChannel ch)) st1)) as ->.
    { unfold subscribe. unfold bind at 1. rewrite G.
      unfold bind, query. rewrite Hq, Hlock. reflexivity. }
    cbn. split; [reflexivity|]. split; [|exact Hs].
    apply issued_app. cbn. rewrite Hq. reflexivity.
  - rewrite (unsubscribe_lock_rejected world u st e' Hlocku). cbn.
    split; [reflexivity|]. split; [|reflexivity].
    apply issued_app. reflexivity.
Qed.

Lemma lock_refused_changes_nothing_witness :
  let st := MoreSamples.connected in
  fst (subscribe MoreSamples.lockRejected Samples.docs42 (Callback 1) st)
    = Thrown Samples.connectionLost
  /\ issued st (snd (subscribe MoreSamples.lockRejected Samples.docs42 (Callback 1) st))
     = [lockQuery (hashChannel Samples.docs42)]
  /\ subscribers (snd (subscribe MoreSamples.lockRejected Samples.docs42 (Callback 1) st))
     = subscribers st.
Proof.
  exact (proj1 (lock_refused_changes_nothing MoreSamples.lockRejected
                  Samples.docs42 (Callback 1) MoreSamples.connected
                  Samples.instance (Samples.closure (Callback 1))
                  Samples.connectionLost Samples.connectionLost
                  eq_refl eq_refl eq_refl)).
Defined.

(** ** The registry *)

(** X8.  [subscribe] and the closure only ever touch the entry of their own
    channel: the subscriber set of every other channel is the same before
    and after, whatever the server answers. *)
Theorem other_channels_untouched world ch sub u st other :
  (other <> ch ->
   subscribers (snd (subscribe world ch sub st)) !! other = subscribers st !! other)
  /\ (other <> u_channel u ->
      subscribers (snd (unsubscribe world u st)) !! other = subscribers st !! other).
Proof.
  split; intros Hne.
  - destruct (subscribe_registry world ch sub st)
      as [H|[H|[H|(subs & _ & H)]]]; rewrite H; try reflexivity;
      apply lookup_insert_ne; congruence.
  - destruct (unsubscribe_registry world u st) as [H|[H|(subs & _ & H)]];
      rewrite H; try reflexivity.
    + apply lookup_delete_ne; congruence.
    + apply lookup_insert_ne; congruence.
Qed.

Lemma other_channels_untouched_witness :
  let st := snd (subscribe Samples.healthy MoreSamples.jobs (Callback 7)
                   Samples.configured) in
  subscribers (snd (subscribe Samples.listenRejected Samples.docs42 (Callback 1) st))
    !! MoreSamples.jobs = subscribers st !! MoreSamples.jobs
  /\ subscribers (snd (unsubscribe Samples.healthy (Samples.closure (Callback 1)) st))
    !! MoreSamples.jobs = subscribers st !! MoreSamples.jobs.
Proof.
  intros st.
  assert (MoreSamples.jobs <> Samples.docs42) as Hne by discriminate.
  destruct (other_channels_untouched Samples.listenRejected Samples.docs42
              (Callback 1) (Samples.closure (Callback 1)) st MoreSamples.jobs)
    as [H1 _].
  destruct (other_channels_untouched Samples.healthy Samples.docs42
              (Callback 1) (Samples.closure (Callback 1)) st MoreSamples.jobs)
    as [_ H2].
  split; [exact (H1 Hne)|exact (H2 Hne)].
Defined.

(** What the registry is after a call that returned. *)
Lemma subscribe_returned_registry world ch sub st u st' :
  subscribe world ch sub st = (Returned u, st') ->
  subscribers st'
  = <[ch := match subscribers st !! ch with
            | Some subs => JsSet.add sub subs
            | None => [sub]
            end]> (subscribers st).
Proof.
  unfold subscribe. unfold bind at 1.
  pose proof (getPGInstance_frame world st) as F. cbv zeta in F.
  destruct (getPGInstance world st) as [[inst|e] st1]; cbn [snd] in F;
    [|discriminate].
  destruct F as (Hs & _). rewrite <- Hs.
  unfold bind, tryFinally, tryCatch, gets, modify, ret, throw, query.
  intros E.
  repeat (case_match; simplify_eq/=);
    repeat match goal with
           | H : getProperty _ _ = OwnSet _ |- _ => apply getProperty_OwnSet in H
           | H : getProperty _ _ = Undefined |- _ =>
               apply getProperty_Undefined in H; destruct H
           end;
    simplify_eq; reflexivity.
Qed.

Lemma unsubscribe_returned_registry world u st st' :
  unsubscribe world u st = (Returned tt, st') ->
  subscribers st'
  = match subscribers st !! u_channel u with
    | None => subscribers st
    | Some subs =>
        match JsSet.delete (u_onNotification u) subs with
        | [] => delete (u_channel u) (subscribers st)
        | remaining => <[u_channel u := remaining]> (subscribers st)
        end
    end.
Proof.
  unfold unsubscribe, bind, tryFinally, tryCatch, gets, modify, ret, throw, query.
  destruct (queryOutcome world (sent st) (lockQuery (u_channelLockId u)));
    [discriminate|].
  cbn. destruct (subscribers st !! u_channel u) as [subs|] eqn:Hsubs; cbn.
  - rewrite (getProperty_own _ _ _ Hsubs). cbn.
    destruct (JsSet.delete (u_onNotification u) subs) as [|x rest] eqn:Hdel.
    + rewrite (proj2 (SetFacts.size_zero [])) by reflexivity. intros E.
      repeat (case_match; simplify_eq/=). apply delete_insert_eq.
    + destruct (JsSet.size (x :: rest) =? 0) eqn:Hsz;
        [apply SetFacts.size_zero in Hsz; discriminate|].
      intros E. repeat (case_match; simplify_eq/=). reflexivity.
  - destruct (getProperty_no_entry _ _ Hsubs) as [H|H]; rewrite H; cbn;
      intros E; repeat (case_match; simplify_eq/=); reflexivity.
Qed.

Lemma delete_added sub subs :
  sub ∉ subs -> JsSet.delete sub (JsSet.add sub subs) = subs.
Proof.
  intros Hnotin. unfold JsSet.add, JsSet.has.
  rewrite bool_decide_eq_false_2 by exact Hnotin.
  unfold JsSet.delete. rewrite List.filter_app.
  fold (JsSet.delete sub subs). fold (JsSet.delete sub [sub]).
  rewrite (SetFacts.delete_absent _ _ Hnotin), SetFacts.delete_only.
  apply app_nil_r.
Qed.

(** X9.  Subscribing and then calling the returned closure puts the registry
    back exactly as it was, provided the callback was not registered on the
    channel before and the channel had either no entry or a non-empty set:
    a first subscriber's entry is deleted again, and an existing set gets
    back its members in their order. *)
Theorem subscribe_then_unsubscribe_restores world ch sub st u st1 st2 :
  subscribe world ch sub st = (Returned u, st1) ->
  unsubscribe world u st1 = (Returned tt, st2) ->
  (forall subs, subscribers st !! ch = Some subs -> subs <> [] /\ sub ∉ subs) ->
  subscribers st2 = subscribers st.
Proof.
  intros E1 E2 Hpre.
  destruct (subscribe_returned world ch sub st u st1 E1)
    as (inst & _ & _ & Hu & _).
  pose proof (subscribe_returned_registry world ch sub st u st1 E1) as H1.
  pose proof (unsubscribe_returned_registry world u st1 st2 E2) as H2.
  rewrite Hu in H2. cbn [u_channel u_onNotification] in H2.
  rewrite H1, lookup_insert_eq in H2.
  destruct (subscribers st !! ch) as [subs|] eqn:Hsubs.
  - destruct (Hpre subs eq_refl) as [Hne Hnotin].
    rewrite (delete_added sub subs Hnotin) in H2.
    destruct subs as [|x rest]; [congruence|].
    rewrite H2, insert_insert_eq. apply insert_id. exact Hsubs.
  - rewrite SetFacts.delete_only in H2.
    rewrite H2, delete_insert_eq. apply delete_id. exact Hsubs.
Qed.

Lemma subscribe_then_unsubscribe_restores_witness :
  let st := snd (subscribe Samples.healthy Samples.docs42 (Callback 1)
                   Samples.configured) in
  let st1 := snd (subscribe Samples.healthy Samples.docs42 (Callback 2) st) in
  let st2 := snd (unsubscribe Samples.healthy (Samples.closure (Callback 2)) st1) in
  subscribers st2 = subscribers st.
Proof.
  intros st st1 st2.
  apply (subscribe_then_unsubscribe_restores Samples.healthy Samples.docs42
           (Callback 2) st (Samples.closure (Callback 2)) st1 st2
           eq_refl eq_refl).
  intros subs Hsubs.
  assert (subs = [Callback 1]) as -> by (vm_compute in Hsubs; congruence).
  split; [discriminate|].
  intros Hin. apply list_elem_of_singleton in Hin. discriminate.
Defined.

(** X10.  Calling a closure a second time, after a first call that returned,
    does nothing to the registry and sends no UNLISTEN: the first call has
    either deleted the entry or left a non-empty set without the
    callback. *)
Theorem second_unsubscribe_is_noop world u st st1 :
  unsubscribe world u st = (Returned tt, st1) ->
  queryOutcome world (sent st1) (lockQuery (u_channelLockId u)) = None ->
  let st2 := snd (unsubscribe world u st1) in
  subscribers st2 = subscribers st1
  /\ issued st1 st2 = [lockQuery (u_channelLockId u); unlockQuery (u_channelLockId u)].
Proof.
  intros E1 Hlock st2. subst st2.
  pose proof (unsubscribe_returned_registry world u st st1 E1) as H1.
  destruct (unsubscribe world u st1) as [r st2] eqn:E2. cbn [snd].
  assert (subscribers st1 !! u_channel u = None
          \/ exists x rest, subscribers st1 !! u_channel u = Some (x :: rest)
                            /\ u_onNotification u ∉ x :: rest) as Hcases.
  { destruct (subscribers st !! u_channel u) as [subs|] eqn:Hsubs.
    - destruct (JsSet.delete (u_onNotification u) subs) as [|x rest] eqn:Hdel.
      + left. rewrite H1. apply lookup_delete_eq.
      + right. exists x, rest. rewrite H1, lookup_insert_eq.
        split; [reflexivity|]. rewrite <- Hdel.
        intros Hin. apply SetFacts.elem_of_delete in Hin. tauto.
    - left. rewrite H1. exact Hsubs. }
  destruct Hcases as [Hnone|(x & rest & Hsome & Hnotin)].
  - destruct (getProperty_no_entry _ _ Hnone) as [Hinh|Hund].
    + destruct (unsubscribe_inherited_name world u st1 r st2 Hlock Hinh E2)
        as (Hi & Hs & _). auto.
    + destruct (unsubscribe_no_entry world u st1 r st2 Hlock Hund E2)
        as (Hi & Hs & _). auto.
  - pose proof (unsubscribe_entry world u st1 _ r st2 Hlock Hsome E2) as H.
    rewrite (SetFacts.delete_absent _ _ Hnotin) in H.
    destruct H as (Hi & Hs & _). split; [|exact Hi].
    rewrite Hs. apply insert_id. exact Hsome.
Qed.

Lemma second_unsubscribe_is_noop_witness :
  let st := snd (subscribe Samples.healthy Samples.docs42 (Callback 1)
                   Samples.configured) in
  let st1 := snd (unsubscribe Samples.healthy (Samples.closure (Callback 1)) st) in
  let st2 := snd (unsubscribe Samples.healthy (Samples.closure (Callback 1)) st1) in
  subscribers st2 = subscribers st1
  /\ issued st1 st2
     = [lockQuery (hashChannel Samples.docs42); unlockQuery (hashChannel Samples.docs42)].
Proof.
  intros st st1 st2.
  exact (second_unsubscribe_is_noop Samples.healthy (Samples.closure (Callback 1))
           st st1 eq_refl eq_refl).
Defined.

Lemma add_not_nil sub subs : JsSet.add sub subs <> [].
Proof.
  intros H. assert (sub ∈ JsSet.add sub subs) as Hin
    by (apply SetFacts.elem_of_add; auto).
  rewrite H in Hin. inversion Hin.
Qed.

Lemma nonEmptySets_insert st st' ch subs :
  nonEmptySets st -> subs <> [] ->
  subscribers st' = <[ch := subs]> (subscribers st) -> nonEmptySets st'.
Proof.
  intros Hinv Hne Heq ch' subs'. rewrite Heq, lookup_insert.
  case_decide; [intros; simplify_eq; done | apply Hinv].
Qed.

Lemma nonEmptySets_delete st st' ch :
  nonEmptySets st ->
  subscribers st' = delete ch (subscribers st) -> nonEmptySets st'.
Proof.
  intros Hinv Heq ch' subs'. rewrite Heq, lookup_delete.
  case_decide; [done | apply Hinv].
Qed.

Lemma nonEmptySets_same st st' :
  nonEmptySets st -> subscribers st' = subscribers st -> nonEmptySets st'.
Proof. intros Hinv Heq ch subs. rewrite Heq. apply Hinv. Qed.

(** X11.  A call of [subscribe] or of a closure that runs to its end with
    every query accepted, started on a registry without empty sets, ends on
    a registry without empty sets: the set emptied by the last subscriber is
    deleted before the call ends, and a set is created with its first
    member. *)
Theorem accepted_queries_keep_sets_non_empty world ch sub u st :
  (forall hist q, queryOutcome world hist q = None) ->
  nonEmptySets st ->
  nonEmptySets (snd (subscribe world ch sub st))
  /\ nonEmptySets (snd (unsubscribe world u st)).
Proof.
  intros Hok IH. split.
  - destruct (subscribe world ch sub st) as [r st'] eqn:E. cbn [snd].
    destruct (getPGInstance world st) as [[inst|e] st1] eqn:G.
    + assert (fst (getPGInstance world st) = Returned inst) as Hget
        by (rewrite G; reflexivity).
      destruct (getProperty (subscribers st) ch) as [subs| |] eqn:Hsubs.
      * apply getProperty_OwnSet in Hsubs.
        destruct (subscribe_existing_set world ch sub st inst subs r st'
                    Hget (Hok _ _) Hsubs E) as [_ Hs].
        eapply nonEmptySets_insert; [exact IH| |exact Hs]. apply add_not_nil.
      * destruct (subscribe_inherited_name world ch sub st inst r st'
                    Hget (Hok _ _) Hsubs E) as (_ & Hs & _).
        eapply nonEmptySets_same; [exact IH|exact Hs].
      * destruct (subscribe_new_set world ch sub st inst r st'
                    Hget (Hok _ _) Hsubs E) as [_ Hs].
        rewrite Hok in Hs.
        eapply nonEmptySets_insert; [exact IH| |exact Hs]. discriminate.
    + eapply nonEmptySets_same; [exact IH|].
      revert E. unfold subscribe. unfold bind at 1. rewrite G.
      intros E. simplify_eq.
      pose proof (getPGInstance_frame world st) as F. rewrite G in F.
      apply F.
  - destruct (unsubscribe world u st) as [r st'] eqn:E. cbn [snd].
    destruct (getProperty (subscribers st) (u_channel u)) as [subs| |] eqn:Hsubs.
    + apply getProperty_OwnSet in Hsubs.
      pose proof (unsubscribe_entry world u st subs r st' (Hok _ _) Hsubs E) as H.
      destruct (JsSet.delete (u_onNotification u) subs) as [|x rest].
      * destruct H as [_ Hs]. rewrite Hok in Hs.
        eapply nonEmptySets_delete; [exact IH|exact Hs].
      * destruct H as (_ & Hs & _).
        eapply nonEmptySets_insert; [exact IH| |exact Hs]. discriminate.
    + destruct (unsubscribe_inherited_name world u st r st' (Hok _ _) Hsubs E)
        as (_ & Hs & _).
      eapply nonEmptySets_same; [exact IH|exact Hs].
    + destruct (unsubscribe_no_entry world u st r st' (Hok _ _) Hsubs E)
        as (_ & Hs & _).
      eapply nonEmptySets_same; [exact IH|exact Hs].
Qed.

Lemma accepted_queries_keep_sets_non_empty_witness :
  let st := snd (subscribe Samples.healthy Samples.docs42 (Callback 1)
                   Samples.configured) in
  nonEmptySets (snd (subscribe Samples.healthy MoreSamples.jobs (Callback 2) st))
  /\ nonEmptySets (snd (unsubscribe Samples.healthy (Samples.closure (Callback 1)) st)).
Proof.
  intros st.
  apply (accepted_queries_keep_sets_non_empty Samples.healthy).
  - intros hist q. reflexivity.
  - intros ch subs H.
    assert (subscribers st = {[Samples.docs42 := [Callback 1]]}) as Hst
      by (vm_compute; reflexivity).
    rewrite Hst in H. apply lookup_singleton_Some in H.
    destruct H as [_ <-]. discriminate.
Defined.

(** ** Delivery *)

Lemma onNotificationEvent_all_return world n st subs :
  subscribers st !! channel n = Some subs ->
  (forall hist sub, sub ∈ subs -> callOutcome world hist sub (payload n) = None) ->
  fst (onNotificationEvent world n st) = Returned tt.
Proof.
  intros Hsubs Hall. unfold onNotificationEvent, bind, gets. cbn.
  rewrite (getProperty_own _ _ _ Hsubs).
  pose proof (forEach_all_return world (payload n) subs st Hall) as H.
  destruct (forEach subs _ st) as [r st1]. cbn in *. rewrite H. reflexivity.
Qed.

Lemma deliveries_app sub l k :
  deliveries sub (l ++ k) = (deliveries sub l + deliveries sub k)%nat.
Proof. unfold deliveries. rewrite List.filter_app, length_app. reflexivity. Qed.

Lemma count_occ_absent sub (l : list callback) :
  sub ∉ l -> count_occ callback_eq_dec l sub = 0%nat.
Proof.
  intros H. apply count_occ_not_In. rewrite <- list_elem_of_In. exact H.
Qed.



(** X13.  After the closure has run with the advisory lock, the handler no
    longer calls its callback for notifications on its channel, whether the
    UNLISTEN was accepted or not. *)
Theorem unsubscribed_callback_is_not_called world u st :
  queryOutcome world (sent st) (lockQuery (u_channelLockId u)) = None ->
  let st' := snd (unsubscribe world u st) in
  forall world' arg,
    let n := {| channel := u_channel u; payload := arg |} in
    deliveries (u_onNotification u)
      (invoked st' (snd (onNotificationEvent world' n st'))) = 0%nat.
Proof.
  intros Hlock st' world' arg n.
  pose proof (unsubscribe_removes_callback world u st Hlock) as Hrem.
  fold st' in Hrem.
  destruct (subscribers st' !! u_channel u) as [subs|] eqn:Hsubs.
  - destruct (onNotificationEvent_entry world' n st' subs Hsubs) as [[rest Hpre] _].
    subst n. cbn [payload channel] in *.
    pose proof (deliveries_map (u_onNotification u) arg subs) as Hcount.
    rewrite (count_occ_absent _ _ (Hrem subs eq_refl)), Hpre, deliveries_app
      in Hcount.
    lia.
  - destruct (getProperty_no_entry _ _ Hsubs) as [Hinh|Hund].
    + rewrite (onNotificationEvent_inherited_name world' n st') by exact Hinh.
      cbn. unfold invoked. rewrite drop_all. reflexivity.
    + rewrite (onNotificationEvent_nobody world' n st') by (left; exact Hund).
      cbn. unfold invoked. rewrite drop_all. reflexivity.
Qed.

Lemma unsubscribed_callback_is_not_called_witness :
  let st := snd (subscribe Samples.healthy Samples.docs42 (Callback 2)
             (snd (subscribe Samples.healthy Samples.docs42 (Callback 1)
                     Samples.configured))) in
  let st' := snd (unsubscribe Samples.healthy (Samples.closure (Callback 1)) st) in
  let n := {| channel := Samples.docs42; payload := Some (str "updated") |} in
  deliveries (Callback 1)
    (invoked st' (snd (onNotificationEvent Samples.healthy n st'))) = 0%nat.
Proof.
  intros st st' n.
  exact (unsubscribed_callback_is_not_called Samples.healthy
           (Samples.closure (Callback 1)) st eq_refl Samples.healthy
           (Some (str "updated"))).
Defined.

(** ** Failures after the registry was changed *)

(** X14.  When the unlock query of [subscribe] is rejected, [subscribe]
    throws that rejection and returns no closure, although the callback has
    been registered: it stays in the channel's set.  (On a channel where
    [subscribe] reads an inherited property nothing is registered.) *)
Theorem unlock_rejected_keeps_registration world ch sub st inst e :
  fst (getPGInstance world st) = Returned inst ->
  queryOutcome world (sent st) (lockQuery (hashChannel ch)) = None ->
  getProperty (subscribers st) ch <> Inherited ->
  (forall hist, queryOutcome world hist (listenQuery ch) = None) ->
  (forall hist, queryOutcome world hist (unlockQuery (hashChannel ch)) = Some e) ->
  fst (subscribe world ch sub st) = Thrown e
  /\ exists subs,
      subscribers (snd (subscribe world ch sub st)) !! ch = Some subs /\ sub ∈ subs.
Proof.
  intros Hget Hlock Hown Hlisten Hunlock.
  destruct (subscribe_enter world st inst Hget) as (st1 & G & Hs & Hq).
  destruct (subscribe world ch sub st) as [r st'] eqn:E. cbn [fst snd].
  revert E. unfold subscribe. unfold bind at 1. rewrite G.
  unfold bind, tryFinally, tryCatch, gets, modify, ret, throw, query.
  rewrite Hq, Hlock. cbn. rewrite Hs.
  destruct (getProperty (subscribers st) ch) as [subs| |] eqn:Hsubs;
    [|contradiction|]; cbn;
    rewrite ?Hlisten; cbn; rewrite Hunlock; intros E; simplify_eq/=;
    (split; [reflexivity|]); eexists; (split; [apply lookup_insert_eq|]).
  - apply SetFacts.elem_of_add. auto.
  - apply list_elem_of_singleton. reflexivity.
Qed.

Lemma unlock_rejected_keeps_registration_witness :
  fst (subscribe MoreSamples.unlockRejected Samples.docs42 (Callback 1)
         Samples.configured) = Thrown Samples.connectionLost
  /\ exists subs,
      subscribers (snd (subscribe MoreSamples.unlockRejected Samples.docs42
                          (Callback 1) Samples.configured)) !! Samples.docs42
      = Some subs /\ Callback 1 ∈ subs.
Proof.
  exact (unlock_rejected_keeps_registration MoreSamples.unlockRejected
           Samples.docs42 (Callback 1) Samples.configured Samples.instance
           Samples.connectionLost eq_refl eq_refl
           ltac:(vm_compute; discriminate)
           (fun _ => eq_refl) (fun _ => eq_refl)).
Defined.

(** X15.  When the UNLISTEN of the last subscriber is rejected, the closure
    throws, the callback is out of the set, and the channel keeps an entry
    holding an empty set: the entry is deleted only after an accepted
    UNLISTEN. *)
Theorem unlisten_rejected_keeps_empty_entry world u st subs e :
  queryOutcome world (sent st) (lockQuery (u_channelLockId u)) = None ->
  subscribers st !! u_channel u = Some subs ->
  JsSet.delete (u_onNotification u) subs = [] ->
  queryOutcome world (sent st ++ [lockQuery (u_channelLockId u)])
    (unlistenQuery (u_channel u)) = Some e ->
  let r := fst (unsubscribe world u st) in
  let st' := snd (unsubscribe world u st) in
  (exists e', r = Thrown e')
  /\ (queryOutcome world
        (sent st ++ [lockQuery (u_channelLockId u); unlistenQuery (u_channel u)])
        (unlockQuery (u_channelLockId u)) = None -> r = Thrown e)
  /\ subscribers st' = <[u_channel u := []]> (subscribers st).
Proof.
  intros Hlock Hsubs Hdel Hun r st'. subst r st'.
  destruct (unsubscribe world u st) as [r st'] eqn:E. cbn [fst snd].
  revert E.
  unfold unsubscribe, bind, tryFinally, tryCatch, gets, modify, ret, throw, query.
  rewrite Hlock. cbn. rewrite (getProperty_own _ _ _ Hsubs). cbn. rewrite Hdel.
  rewrite (proj2 (SetFacts.size_zero [])) by reflexivity. cbn.
  rewrite Hun. cbn. rewrite <- !app_assoc. cbn.
  destruct (queryOutcome world _ (unlockQuery (u_channelLockId u))) eqn:Hu;
    intros E; simplify_eq/=; (split; [eauto|]); split; auto; intros; congruence.
Qed.

Lemma unlisten_rejected_keeps_empty_entry_witness :
  let st := snd (subscribe Samples.healthy Samples.docs42 (Callback 1)
                   Samples.configured) in
  let u := Samples.closure (Callback 1) in
  fst (unsubscribe MoreSamples.unlistenRejected u st) = Thrown Samples.connectionLost
  /\ subscribers (snd (unsubscribe MoreSamples.unlistenRejected u st))
     = <[Samples.docs42 := []]> (subscribers st).
Proof.
  intros st u.
  destruct (unlisten_rejected_keeps_empty_entry MoreSamples.unlistenRejected u st
              [Callback 1] Samples.connectionLost eq_refl eq_refl eq_refl eq_refl)
    as (_ & Hr & Hs).
  split; [exact (Hr eq_refl)|exact Hs].
Defined.

(** ** [publish] *)

(** X16.  [publish] sends one query, whose text is the same for every
    channel and message and which carries them as its two parameters; it is
    neither a LISTEN nor an UNLISTEN, it completes as that query does, and
    it changes neither the registry nor calls any callback. *)
Theorem publish_binds_parameters world ch msg st inst :
  fst (getPGInstance world st) = Returned inst ->
  let r := fst (publish world ch msg st) in
  let st' := snd (publish world ch msg st) in
  (exists q, issued st st' = [q]
             /\ text q = str "SELECT pg_notify($1, $2)"
             /\ values q = [VString ch; VString msg]
             /\ isListen q = false /\ isUnlisten q = false
             /\ r = match queryOutcome world (sent st) q with
                    | None => Returned tt
                    | Some e => Thrown e
                    end)
  /\ subscribers st' = subscribers st /\ calls st' = calls st.
Proof.
  intros Hget r st'. subst r st'.
  destruct (getPGInstance world st) as [r0 st1] eqn:G. cbn in Hget. subst r0.
  pose proof (getPGInstance_frame world st) as F. rewrite G in F. cbn in F.
  destruct F as (Hs & Hq & Hc & _).
  assert (publish world ch msg st = query world (notifyQuery ch msg) st1) as ->
    by (unfold publish; unfold bind at 1; rewrite G; reflexivity).
  unfold query. rewrite Hq.
  destruct (queryOutcome world (sent st) (notifyQuery ch msg)) eqn:Ho; cbn;
    (split; [exists (notifyQuery ch msg); rewrite Ho;
             split; [apply issued_app; cbn; rewrite Hq; reflexivity|];
             repeat split; reflexivity
            | auto]).
Qed.

Lemma publish_binds_parameters_witness :
  exists q,
    issued Samples.configured
      (snd (publish Samples.healthy Samples.hostileChannel (str "updated")
              Samples.configured)) = [q]
    /\ text q = str "SELECT pg_notify($1, $2)"
    /\ values q = [VString Samples.hostileChannel; VString (str "updated")].
Proof.
  destruct (publish_binds_parameters Samples.healthy Samples.hostileChannel
              (str "updated") Samples.configured Samples.instance eq_refl)
    as [(q & Hi & Ht & Hv & _) _].
  exists q. auto.
Defined.

(** ** More on the lock token *)

Lemma toInt32_add_toInt32 x y : toInt32 (x + toInt32 y) = toInt32 (x + y).
Proof.
  unfold toInt32.
  rewrite (Z.mod_eq (y + 2 ^ 31) (2 ^ 32)) by lia.
  replace (x + (y + 2 ^ 31 - 2 ^ 32 * ((y + 2 ^ 31) / 2 ^ 32) - 2 ^ 31) + 2 ^ 31)
    with (x + y + 2 ^ 31 + (- ((y + 2 ^ 31) / 2 ^ 32)) * 2 ^ 32) by lia.
  rewrite Z_mod_plus_full. reflexivity.
Qed.

Lemma toInt32_mul31 x c : toInt32 (toInt32 x * 31 + c) = toInt32 (x * 31 + c).
Proof.
  unfold toInt32.
  rewrite (Z.mod_eq (x + 2 ^ 31) (2 ^ 32)) by lia.
  replace ((x + 2 ^ 31 - 2 ^ 32 * ((x + 2 ^ 31) / 2 ^ 32) - 2 ^ 31) * 31 + c + 2 ^ 31)
    with (x * 31 + c + 2 ^ 31 + (- 31 * ((x + 2 ^ 31) / 2 ^ 32)) * 2 ^ 32) by lia.
  rewrite Z_mod_plus_full. reflexivity.
Qed.

Lemma hashLoop_toInt32 channel h :
  hashLoop channel (toInt32 h) = toInt32 (hashPolynomial channel h).
Proof.
  revert h. induction channel as [|c rest IH]; intros h; [reflexivity|].
  cbn. unfold hashStep at 2. rewrite toInt32_mul31. apply IH.
Qed.

Lemma hashPolynomial_shift channel h :
  hashPolynomial channel h
  = h * 31 ^ Z.of_nat (length channel) + hashPolynomial channel 0.
Proof.
  revert h. induction channel as [|c rest IH]; intros h.
  - cbn. lia.
  - cbn [hashPolynomial fold_left length].
    fold (hashPolynomial rest (h * 31 + c)). fold (hashPolynomial rest (0 * 31 + c)).
    rewrite (IH (h * 31 + c)), (IH (0 * 31 + c)).
    rewrite Nat2Z.inj_succ, Z.pow_succ_r by lia. lia.
Qed.

(** X17.  Reducing to 32 bits at every character gives the same token as
    reducing once at the end: the token is the absolute value of the signed
    32-bit reduction of the polynomial in 31 whose coefficients are the
    characters of the channel name. *)
Theorem hashChannel_is_polynomial (channel : jsstring) :
  hashChannel channel = Z.abs (toInt32 (hashPolynomial channel 0)).
Proof.
  unfold hashChannel. f_equal.
  change 0 with (toInt32 0) at 1. apply hashLoop_toInt32.
Qed.

(** X18.  Lock tokens collide: two names of the same length on which the
    loop ends with the same value can be exchanged inside any longer channel
    name without changing the token, so the channels around them share one
    advisory lock. *)
Theorem equal_hashes_collide_in_context (a b : jsstring) :
  length a = length b -> hashLoop a 0 = hashLoop b 0 ->
  forall before after,
    hashChannel (before ++ a ++ after) = hashChannel (before ++ b ++ after).
Proof.
  intros Hlen Hhash before after.
  assert (forall x h, hashLoop x (toInt32 h)
                      = toInt32 (h * 31 ^ Z.of_nat (length x) + hashLoop x 0)) as Hctx.
  { intros x h. rewrite hashLoop_toInt32, hashPolynomial_shift.
    change (hashLoop x 0) with (hashLoop x (toInt32 0)).
    rewrite hashLoop_toInt32, toInt32_add_toInt32. reflexivity. }
  unfold hashChannel, hashLoop. rewrite !fold_left_app.
  fold (hashLoop before 0).
  fold (hashLoop a (hashLoop before 0)). fold (hashLoop b (hashLoop before 0)).
  rewrite <- (HashFacts.toInt32_id (hashLoop before 0))
    by (apply HashFacts.hashLoop_range; lia).
  rewrite !Hctx, Hlen, Hhash. reflexivity.
Qed.

Lemma equal_hashes_collide_in_context_witness :
  str "docs:Aa:42" <> str "docs:BB:42"
  /\ hashChannel (str "docs:" ++ str "Aa" ++ str ":42")
     = hashChannel (str "docs:" ++ str "BB" ++ str ":42").
Proof.
  split; [discriminate|].
  exact (equal_hashes_collide_in_context (str "Aa") (str "BB") eq_refl eq_refl
           (str "docs:") (str ":42")).
Defined.

(** X19.  On a well-formed channel name every [hash * 31 + c] of the loop
    is an integer of magnitude below 2^53, so the number arithmetic of the
    loop never rounds. *)
Theorem hash_arithmetic_is_exact (channel : jsstring) :
  JsString.well_formed channel ->
  forall before c after,
    channel = before ++ c :: after ->
    - 2 ^ 53 < hashLoop before 0 * 31 + c < 2 ^ 53.
Proof.
  intros Hwf before c after ->.
  pose proof (HashFacts.hashLoop_range before 0 ltac:(lia)) as Hr.
  unfold JsString.well_formed in Hwf.
  apply Forall_app in Hwf. destruct Hwf as [_ Hwf].
  apply Forall_cons in Hwf. destruct Hwf as [Hc _]. lia.
Qed.

Lemma hash_arithmetic_is_exact_witness :
  - 2 ^ 53 < hashLoop (str "docs") 0 * 31 + 58 < 2 ^ 53.
Proof.
  refine (hash_arithmetic_is_exact Samples.docs42 _ (str "docs") 58 (str "42")
            eq_refl).
  unfold JsString.well_formed. vm_compute.
  repeat (constructor; [split; [discriminate | reflexivity]|]). constructor.
Defined.

(** ** More on the command text *)

(** X20.  For a channel name that is not empty, is made of plain characters
    (no double quote, no backslash, no control character, no surrogate) and
    whose UTF-8 encoding fits in the 63 bytes of an identifier, the LISTEN
    and UNLISTEN texts embed the SQL quoting of the name, and the server
    reads the embedded identifier back as the name itself with nothing left
    over. *)
Theorem plain_channel_is_quoted_safely (ch : jsstring) :
  ch <> [] ->
  forallb Samples.plain ch = true ->
  Sql.utf8Length ch <= Sql.maxIdentifierBytes ->
  text (listenQuery ch) = str "LISTEN " ++ Sql.quoteIdent ch
  /\ text (unlistenQuery ch) = str "UNLISTEN " ++ Sql.quoteIdent ch
  /\ Sql.scanIdent (JSON.stringify ch) = Some (ch, []).
Proof.
  intros Hne H Hfit. unfold listenQuery, unlistenQuery. cbn [text].
  rewrite (QuotingFacts.stringify_plain_is_quoteIdent ch H).
  split; [reflexivity|]. split; [reflexivity|].
  apply QuotingFacts.scanIdent_quoteIdent; assumption.
Qed.

Lemma plain_channel_is_quoted_safely_witness :
  Sql.scanIdent (JSON.stringify Samples.docs42) = Some (Samples.docs42, []).
Proof.
  assert (Samples.docs42 <> []) as Hne by discriminate.
  assert (Sql.utf8Length Samples.docs42 <= Sql.maxIdentifierBytes) as Hfit
    by (vm_compute; discriminate).
  exact (proj2 (proj2 (plain_channel_is_quoted_safely Samples.docs42 Hne eq_refl
                         Hfit))).
Defined.

Lemma hexDigit_printable n : 0 <= n < 16 -> 48 <= JSON.hexDigit n < 128.
Proof. unfold JSON.hexDigit. intros H. destruct (n <? 10) eqn:E; lia. Qed.

Lemma quoteCodePoint_printable c :
  Forall (fun x => 32 <= x) (JSON.quoteCodePoint c).
Proof.
  unfold JSON.quoteCodePoint, JSON.unicodeEscape, JsString.reverse_solidus,
    JsString.quotation_mark.
  pose proof (hexDigit_printable (Z.shiftr c 12 mod 16)
                (Z.mod_pos_bound _ 16 ltac:(lia))).
  pose proof (hexDigit_printable (Z.shiftr c 8 mod 16)
                (Z.mod_pos_bound _ 16 ltac:(lia))).
  pose proof (hexDigit_printable (Z.shiftr c 4 mod 16)
                (Z.mod_pos_bound _ 16 ltac:(lia))).
  pose proof (hexDigit_printable (c mod 16) (Z.mod_pos_bound _ 16 ltac:(lia))).
  repeat match goal with
         | |- context [if ?b then _ else _] => destruct b eqn:?
         end;
    repeat (constructor; try lia).
  all: unfold JSON.isLeadingSurrogate, JSON.isTrailingSurrogate in *; lia.
Qed.

Lemma quoteCodePoints_printable_upto n s :
  (length s <= n)%nat -> Forall (fun x => 32 <= x) (JSON.quoteCodePoints s).
Proof.
  revert s. induction n as [|n IH]; intros s Hlen.
  - destruct s; [constructor|cbn in Hlen; lia].
  - destruct s as [|c rest]; [constructor|].
    change (JSON.quoteCodePoints (c :: rest)) with
      (match rest with
       | d :: rest' =>
           if JSON.isLeadingSurrogate c && JSON.isTrailingSurrogate d
           then c :: d :: JSON.quoteCodePoints rest'
           else JSON.quoteCodePoint c ++ JSON.quoteCodePoints rest
       | [] => JSON.quoteCodePoint c
       end).
    cbn in Hlen. destruct rest as [|d rest'].
    + apply quoteCodePoint_printable.
    + destruct (JSON.isLeadingSurrogate c && JSON.isTrailingSurrogate d) eqn:Hp.
      * apply andb_prop in Hp. destruct Hp as [Hc Hd].
        unfold JSON.isLeadingSurrogate in Hc. unfold JSON.isTrailingSurrogate in Hd.
        constructor; [lia|]. constructor; [lia|].
        apply IH. cbn in Hlen. lia.
      * apply Forall_app. split; [apply quoteCodePoint_printable|].
        apply IH. lia.
Qed.

(** X21.  Whatever the channel name, the text of a LISTEN or UNLISTEN
    command contains no control character: every code unit of it is at
    least 32, control characters of the name being written as escapes. *)
Theorem command_text_has_no_control_character (ch : jsstring) :
  Forall (fun x => 32 <= x) (text (listenQuery ch))
  /\ Forall (fun x => 32 <= x) (text (unlistenQuery ch)).
Proof.
  assert (Forall (fun x => 32 <= x) (JSON.stringify ch)) as H.
  { unfold JSON.stringify. constructor; [unfold JsString.quotation_mark; lia|].
    apply Forall_app. split.
    - apply (quoteCodePoints_printable_upto (length ch)). lia.
    - constructor; [unfold JsString.quotation_mark; lia|constructor]. }
  unfold listenQuery, unlistenQuery. cbn [text].
  split; apply Forall_app; (split; [|exact H]); vm_compute;
    repeat (constructor; [discriminate|]); constructor.
Qed.

(** ** The Prisma client and [recoverFromNotFound] *)

(** X22.  [prisma] throws on a freshly loaded module.  Calling [init] again
    after the pub/sub instance exists rebinds the Prisma client to the new
    connection string, while [getPGInstance] and [getPGPool] keep returning
    the instance built from the earlier options. *)
Theorem reinit_rebinds_prisma_only world m inst o :
  pgInstance (PrismaAccess.pubsub m) = Some inst ->
  let m' := PrismaAccess.init o m in
  PrismaAccess.prisma PrismaAccess.freshModule = Thrown PrismaAccess.accessBeforeInit
  /\ PrismaAccess.prisma m'
     = Returned {| PrismaAccess.datasourceUrl := connectionString o |}
  /\ getPGInstance world (PrismaAccess.pubsub m')
     = (Returned inst, PrismaAccess.pubsub m')
  /\ getPGPool world (PrismaAccess.pubsub m')
     = (Returned (pool inst), PrismaAccess.pubsub m').
Proof.
  intros Hi m'.
  assert (getPGInstance world (PrismaAccess.pubsub m')
          = (Returned inst, PrismaAccess.pubsub m')) as G
    by (apply (getPGInstance_memo world _ o inst); [reflexivity|exact Hi]).
  split; [reflexivity|]. split; [reflexivity|]. split; [exact G|].
  unfold getPGPool, bind. rewrite G. reflexivity.
Qed.

Lemma reinit_rebinds_prisma_only_witness :
  let m := PrismaAccess.init Samples.preferOptions PrismaAccess.freshModule in
  let m1 := {| PrismaAccess.singleton := PrismaAccess.singleton m;
               PrismaAccess.pubsub := MoreSamples.connected |} in
  let m' := PrismaAccess.init MoreSamples.otherOptions m1 in
  PrismaAccess.prisma m'
  = Returned {| PrismaAccess.datasourceUrl := connectionString MoreSamples.otherOptions |}
  /\ getPGInstance MoreSamples.unreachable (PrismaAccess.pubsub m')
     = (Returned Samples.instance, PrismaAccess.pubsub m').
Proof.
  intros m m1 m'.
  destruct (reinit_rebinds_prisma_only MoreSamples.unreachable m1 Samples.instance
              MoreSamples.otherOptions eq_refl) as (_ & H1 & H2 & _).
  split; [exact H1|exact H2].
Defined.


